(** * protochess: the ChessGame canvas component and the WebChess bindings

    A shallow embedding of

    - [ChessGame] (the React component that drives a fabric.js canvas
      through the static classes [Board] and [PieceHandler]), and
    - the highlight bookkeeping of [_WebChess.svelte],

    together with the properties the specification states about them.

    [ChessGame] imports [Board], [PieceHandler], [ColorConstants] and the
    types of [protochess-shared]; their source files are not available, so
    their definitions below follow the specification and say so
    ("Modelled from the spec").  Everything in [Module ChessGame] and
    [Module WebChess] follows the source text statement by statement. *)

From Stdlib Require Import QArith Qcanon Qround Lia.
From stdpp Require Import base option list gmap strings numbers countable.

(* ===================================================================== *)
(** ** JavaScript numbers *)
(* ===================================================================== *)

(** A JavaScript [number] is modelled by an exact rational or one of the
    three special values.  Rounding of doubles and the sign of zero are not
    represented: every finite operation is exact. *)
Module JS.

Inductive number : Type :=
  | Num (q : Qc)
  | PosInf
  | NegInf
  | NaN.

Definition of_Z (z : Z) : number := Num (Q2Qc (inject_Z z)).

Definition finite (n : number) : Prop :=
  match n with Num _ => True | _ => False end.

Definition nonzero (n : number) : Prop :=
  match n with Num q => q ≠ 0%Qc | _ => False end.

Definition infinity (negative : bool) : number :=
  if negative then NegInf else PosInf.

Definition negative (q : Qc) : bool := bool_decide (q < 0)%Qc.

(** [a / b] *)
Definition div (a b : number) : number :=
  match a, b with
  | NaN, _ | _, NaN => NaN
  | Num p, Num q =>
      if decide (q = 0%Qc)
      then (if decide (p = 0%Qc) then NaN else infinity (negative p))
      else Num (p / q)%Qc
  | Num _, _ => Num 0%Qc
  | PosInf, Num q => infinity (negative q)
  | NegInf, Num q => infinity (negb (negative q))
  | _, _ => NaN
  end.

(** [a * b] *)
Definition mul (a b : number) : number :=
  match a, b with
  | NaN, _ | _, NaN => NaN
  | Num p, Num q => Num (p * q)%Qc
  | Num p, PosInf | PosInf, Num p =>
      if decide (p = 0%Qc) then NaN else infinity (negative p)
  | Num p, NegInf | NegInf, Num p =>
      if decide (p = 0%Qc) then NaN else infinity (negb (negative p))
  | PosInf, PosInf | NegInf, NegInf => PosInf
  | _, _ => NegInf
  end.

(** [a - b] *)
Definition sub (a b : number) : number :=
  match a, b with
  | NaN, _ | _, NaN => NaN
  | Num p, Num q => Num (p - q)%Qc
  | Num _, PosInf => NegInf
  | Num _, NegInf => PosInf
  | PosInf, PosInf | NegInf, NegInf => NaN
  | PosInf, _ => PosInf
  | NegInf, _ => NegInf
  end.

(** A property that may be missing from an object reads as [undefined];
    [None] stands for that.  Arithmetic converts [undefined] to [NaN]. *)
Definition to_number (v : option number) : number := default NaN v.

(** The three values a nullable property can take. *)
Inductive nullable (A : Type) : Type :=
  | Undefined
  | Null
  | Val (a : A).
Arguments Undefined {A}.
Arguments Null {A}.
Arguments Val {A} a.

(** The integers [0, 1, ..., ⌈n⌉ - 1] visited by
    [for (i = 0; i < n; i++)]; a non-finite bound visits nothing here. *)
Definition below (n : number) : list number :=
  match n with
  | Num q => of_Z <$> seqZ 0 (Qceiling q)
  | _ => []
  end.

End JS.

Export JS (number, Num, PosInf, NegInf, NaN).

Global Instance number_eq_dec : EqDecision number.
Proof. solve_decision. Defined.

Definition number_to_sum (n : number) : Qc + nat :=
  match n with
  | Num q => inl q
  | PosInf => inr 0%nat
  | NegInf => inr 1%nat
  | NaN => inr 2%nat
  end.

Definition number_of_sum (s : Qc + nat) : number :=
  match s with
  | inl q => Num q
  | inr 0%nat => PosInf
  | inr 1%nat => NegInf
  | inr _ => NaN
  end.

Global Instance number_countable : Countable number :=
  inj_countable' number_to_sum number_of_sum
    (λ n, match n with
          | Num _ | PosInf | NegInf | NaN => eq_refl
          end).

Global Instance nullable_eq_dec `{EqDecision A} : EqDecision (JS.nullable A).
Proof. solve_decision. Defined.

(* ===================================================================== *)
(** ** Data exchanged with the state layer *)
(* ===================================================================== *)

(** Modelled from the spec: the types [GameState] and [Piece] of
    [protochess-shared] ("{board: {width, height}, pieces: [...]}" and
    "{id, location: {x, y}, owner}").  A field the snapshot may lack is an
    [option]. *)
Module Location.
Record t : Type := mk { x : number; y : number }.
End Location.

Module Piece.
Record t : Type := mk { id : string; location : Location.t; owner : number }.
End Piece.

Module BoardDims.
Record t : Type := mk { width : option number; height : option number }.
End BoardDims.

Module GameState.
Record t : Type := mk { board : option BoardDims.t; pieces : list Piece.t }.

(** Board dimensions as numbers; whatever is missing reads as [NaN]. *)
Definition cols (gs : t) : number :=
  JS.to_number (board gs ≫= BoardDims.width).
Definition rows (gs : t) : number :=
  JS.to_number (board gs ≫= BoardDims.height).
End GameState.

(** [IProps]; [requestMove] is a callback of the embedding page and is not
    called by any of the methods embedded below. *)
Module Props.
Record t : Type := mk {
  width : number;
  height : number;
  gameState : GameState.t;
  inverted : option bool;      (* boolean | null *)
  playerNum : option number    (* number | null *)
}.
End Props.

(** Modelled from the spec: the constant
    [ColorConstants.LAST_MOVE_HIGHLIGHT_COLOR], the spec's "last move"
    highlight color; its value is not known, so it is a parameter of the
    development. *)
Class ColorConstants : Type := {
  LAST_MOVE_HIGHLIGHT_COLOR : string
}.

(* ===================================================================== *)
(** ** The canvas and the objects on it *)
(* ===================================================================== *)

Abbreviation TileKey := (number * number)%type.

(** Where a text sits: at the coordinates it was created with, or moved to
    the centre of its canvas by [center()]. *)
Inductive TextPos : Type :=
  | At (left top : number)
  | CanvasCentre.

(** [new fabric.Text(playerNum + ' wins!', {...})]: the text is kept as
    the number and the literal it is concatenated with. *)
Record Text : Type := mkText {
  text_number : number;
  text_suffix : string;
  text_pos : TextPos;
  text_fill : string
}.

(** Modelled from the spec: the visual object of a TileKey, a rectangle
    that [Board] places on the canvas. *)
Record Tile : Type := mkTile {
  tile_left : number;
  tile_top : number
}.

(** Modelled from the spec: the visual side of a PieceRecord, the group
    that [PieceHandler] keeps per piece id ([left] and [top] are read by
    [ChessGame.updatePiece]); [lockMovement] is the spec's InteractionLock. *)
Record Group : Type := mkGroup {
  left : number;
  top : number;
  group_owner : number;
  lockMovement : bool
}.

(** What [canvas.add] has put on the canvas.  Tiles and groups are shared
    with the maps of [Board] and [PieceHandler]: the canvas holds the key
    under which the one object lives there, so an update through the map is
    an update of what the canvas shows. *)
Inductive FabricObject : Type :=
  | TileRect (key : TileKey)
  | PieceGroup (id : string)
  | TextObject (t : Text).

Record Canvas : Type := mkCanvas {
  canvas_width : number;
  canvas_height : number;
  preserveObjectStacking : bool;
  selection : bool;
  handlers : list string;
  objects : list FabricObject
}.

Global Instance TextPos_eq_dec : EqDecision TextPos.
Proof. solve_decision. Defined.
Global Instance Text_eq_dec : EqDecision Text.
Proof. solve_decision. Defined.
Global Instance Tile_eq_dec : EqDecision Tile.
Proof. solve_decision. Defined.
Global Instance Group_eq_dec : EqDecision Group.
Proof. solve_decision. Defined.
Global Instance FabricObject_eq_dec : EqDecision FabricObject.
Proof. solve_decision. Defined.
Global Instance Canvas_eq_dec : EqDecision Canvas.
Proof. solve_decision. Defined.
Global Instance Location_eq_dec : EqDecision Location.t.
Proof. solve_decision. Defined.

Definition isTile (o : FabricObject) : bool :=
  match o with TileRect _ => true | _ => false end.

Definition isPiece (o : FabricObject) : bool :=
  match o with PieceGroup _ => true | _ => false end.

(* ===================================================================== *)
(** ** The shared state *)
(* ===================================================================== *)

(** Modelled from the spec: the static fields of [Board], namely the
    precomputed tile size, the board dimensions, the TileKey mapping and the
    HighlightState of the last move. *)
Record BoardStatics : Type := mkBoard {
  board_tileWidth : number;
  board_tileHeight : number;
  board_cols : number;
  board_rows : number;
  board_tileMap : gmap TileKey Tile;
  (** the entries of the HighlightState *)
  board_lastMove : list (TileKey * string)
}.

(** Modelled from the spec: the static fields of [PieceHandler], namely the
    precomputed tile size, the orientation the pieces were loaded under and
    the PieceRecord mapping ([PieceHandler.pieceMap] in
    [ChessGame.updatePiece]). *)
Record PieceHandlerStatics : Type := mkPieceHandler {
  ph_tileWidth : number;
  ph_tileHeight : number;
  ph_inverted : bool;
  ph_pieceMap : gmap string Group
}.

(** Private fields of the [ChessGame] instance, except [canvas]. *)
Record ChessGameFields : Type := mkFields {
  tileMap : gmap TileKey Tile;
  pieceMap : gmap string Group;
  tileWidth : number;
  tileHeight : number
}.

(** Everything the methods read and write.  [canvas] is the one
    [fabric.Canvas] that [this.canvas], [Board] and [PieceHandler] all
    refer to after [componentDidMount]; [None] is [this.canvas === null].
    [console] collects what [console.log] printed. *)
Record World : Type := mkWorld {
  canvas : option Canvas;
  board : BoardStatics;
  pieceHandler : PieceHandlerStatics;
  self : ChessGameFields;
  console : list number
}.

Global Instance BoardStatics_eq_dec : EqDecision BoardStatics.
Proof. solve_decision. Defined.
Global Instance PieceHandlerStatics_eq_dec : EqDecision PieceHandlerStatics.
Proof. solve_decision. Defined.
Global Instance ChessGameFields_eq_dec : EqDecision ChessGameFields.
Proof. solve_decision. Defined.
Global Instance World_eq_dec : EqDecision World.
Proof. solve_decision. Defined.

Definition with_canvas (c : option Canvas) (w : World) : World :=
  mkWorld c (board w) (pieceHandler w) (self w) (console w).
Definition with_board (b : BoardStatics) (w : World) : World :=
  mkWorld (canvas w) b (pieceHandler w) (self w) (console w).
Definition with_pieceHandler (p : PieceHandlerStatics) (w : World) : World :=
  mkWorld (canvas w) (board w) p (self w) (console w).
Definition with_self (f : ChessGameFields) (w : World) : World :=
  mkWorld (canvas w) (board w) (pieceHandler w) f (console w).
Definition log (n : number) (w : World) : World :=
  mkWorld (canvas w) (board w) (pieceHandler w) (self w) (console w ++ [n]).

(** [canvas.add(o)] and the removal of objects, on the shared canvas. *)
Definition canvas_add (o : FabricObject) (c : Canvas) : Canvas :=
  mkCanvas (canvas_width c) (canvas_height c) (preserveObjectStacking c)
           (selection c) (handlers c) (objects c ++ [o]).

Definition canvas_keep (keep : FabricObject → bool) (c : Canvas) : Canvas :=
  mkCanvas (canvas_width c) (canvas_height c) (preserveObjectStacking c)
           (selection c) (handlers c) (filter (λ o, keep o = true) (objects c)).

(** The state before the component is mounted: the fields of [ChessGame]
    as their initialisers leave them, the statics of the two helper classes
    not yet set (a number not yet set reads as [NaN] in arithmetic). *)
Definition initialWorld : World :=
  mkWorld None
          (mkBoard NaN NaN NaN NaN ∅ [])
          (mkPieceHandler NaN NaN false ∅)
          (mkFields ∅ ∅ (Num 0) (Num 0))
          [].

(* ===================================================================== *)
(** ** Coordinate mapping *)
(* ===================================================================== *)

(** Modelled from the spec: the mapping between logical and screen
    coordinates, "a pure function toScreen(inverted, x, y) -> (left, top)
    and its inverse toLogical(inverted, left, top) -> (x, y), where
    inversion means screen rows/columns run in reverse order relative to
    logical coordinates, and scaling uses the precomputed tile
    width/height".  [Geometry] is what is precomputed. *)
Record Geometry : Type := mkGeometry {
  geo_tileWidth : number;
  geo_tileHeight : number;
  geo_cols : number;
  geo_rows : number
}.

(** Modelled from the spec: "screen rows/columns run in reverse order",
    index [i] counted from the far end of [n] rows or columns. *)
Definition mirror (n i : number) : number :=
  JS.sub (JS.sub n (JS.of_Z 1)) i.

(** Modelled from the spec: [toScreen(inverted, x, y) -> (left, top)]. *)
Definition toScreen (g : Geometry) (inverted : bool) (x y : number)
  : number * number :=
  if inverted
  then (JS.mul (mirror (geo_cols g) x) (geo_tileWidth g),
        JS.mul (mirror (geo_rows g) y) (geo_tileHeight g))
  else (JS.mul x (geo_tileWidth g), JS.mul y (geo_tileHeight g)).

(** Modelled from the spec: [toLogical(inverted, left, top) -> (x, y)],
    the inverse of [toScreen]. *)
Definition toLogical (g : Geometry) (inverted : bool) (left top : number)
  : Location.t :=
  if inverted
  then Location.mk (mirror (geo_cols g) (JS.div left (geo_tileWidth g)))
                   (mirror (geo_rows g) (JS.div top (geo_tileHeight g)))
  else Location.mk (JS.div left (geo_tileWidth g))
                   (JS.div top (geo_tileHeight g)).

Global Instance Geometry_eq_dec : EqDecision Geometry.
Proof. solve_decision. Defined.

(** A geometry one can scale with: finite, with tiles of non-zero size. *)
Definition usable (g : Geometry) : Prop :=
  JS.nonzero (geo_tileWidth g) ∧ JS.nonzero (geo_tileHeight g) ∧
  JS.finite (geo_cols g) ∧ JS.finite (geo_rows g).

(* ===================================================================== *)
(** ** The last-move layer *)
(* ===================================================================== *)

(** Modelled from the spec: the HighlightState, "mapping from TileKey to a
    highlight color", is kept as the list of its entries (the field
    [board_lastMove]).  What a single call of
    [Board.updateBoardHighlight] does to these entries is not known: the
    source of [Board] is not available and the spec describes the
    highlights move by move, not mark by mark.  The effect of one mark is
    therefore a parameter of the development: any function of the
    arguments of the call and of the entries, which are all a mark reads
    and writes (entries in other colours are free to hold whatever a
    [Board] may want to remember). *)
Class LastMoveMarks : Type := {
  markTile :
    bool → TileKey → string → list (TileKey * string) → list (TileKey * string)
}.

(* ===================================================================== *)
(** ** Board *)
(* ===================================================================== *)

(** The static class [Board].  Its methods take the canvas from the shared
    state; an [inverted] argument is the boolean the caller passes. *)
Module Board.

Definition geometry (w : World) : Geometry :=
  mkGeometry (board_tileWidth (board w)) (board_tileHeight (board w))
             (board_cols (board w)) (board_rows (board w)).

(** Modelled from the spec: [Board.init(canvas, tileWidth, tileHeight)]
    keeps the canvas and "the precomputed tile width/height". *)
Definition init (tileWidth tileHeight : number) (w : World) : World :=
  let b := board w in
  with_board (mkBoard tileWidth tileHeight (board_cols b) (board_rows b)
                      (board_tileMap b) (board_lastMove b)) w.

(** Modelled from the spec: [Board.deleteAll()], the tile half of the
    "full teardown (remove all piece and tile visuals)".  The highlights
    live on the tiles and go with them. *)
Definition deleteAll (w : World) : World :=
  let b := board w in
  with_canvas (canvas_keep (λ o, negb (isTile o)) <$> canvas w)
    (with_board (mkBoard (board_tileWidth b) (board_tileHeight b)
                         (board_cols b) (board_rows b) ∅ []) w).

(** Modelled from the spec: one tile per logical square of a board of the
    given width and height, placed by the coordinate mapping. *)
Definition tiles (g : Geometry) (inverted : bool) : list (TileKey * Tile) :=
  x ← JS.below (geo_cols g);
  y ← JS.below (geo_rows g);
  let '(l, t) := toScreen g inverted x y in
  [((x, y), mkTile l t)].

(** Modelled from the spec: [Board.loadBoard(inverted, gameState)],
    the tile half of initialisation: it "clears any existing TileKey ...
    mappings" and builds "exactly one visual object per TileKey"; the
    source comments its result as "Maps X#Y# to a fabric rect". *)
Definition loadBoard (inverted : bool) (gs : GameState.t) (w : World)
  : gmap TileKey Tile * World :=
  let w := deleteAll w in
  let b := board w in
  let g := mkGeometry (board_tileWidth b) (board_tileHeight b)
                      (GameState.cols gs) (GameState.rows gs) in
  let ts := tiles g inverted in
  let tm : gmap TileKey Tile := list_to_map ts in
  (tm,
   with_canvas (canvas ← canvas w;
                Some (foldl (λ c k, canvas_add (TileRect k) c) canvas ts.*1))
     (with_board (mkBoard (board_tileWidth b) (board_tileHeight b)
                          (geo_cols g) (geo_rows g) tm []) w)).

(** Modelled from the spec: [Board.fabricPosToXY(inverted, left, top)],
    the spec's [toLogical] with the geometry [Board] holds. *)
Definition fabricPosToXY (inverted : bool) (left top : number) (w : World)
  : Location.t :=
  toLogical (geometry w) inverted left top.

(** Modelled from the spec: the tiles that carry colour [color] among the
    entries of a HighlightState. *)
Definition carrying (color : string) (entries : list (TileKey * string))
  : list TileKey :=
  (filter (λ m, m.2 = color) entries).*1.

(** Modelled from the spec: [Board.updateBoardHighlight(inverted, x, y,
    color)] marks the tile of a logical square with a colour; what the
    mark does to the entries is [markTile].  A square without a tile is
    "silently ignored". *)
Definition updateBoardHighlight `{LastMoveMarks} (inverted : bool)
    (x y : number) (color : string) (w : World) : World :=
  let b := board w in
  match board_tileMap b !! (x, y) with
  | Some _ =>
      with_board (mkBoard (board_tileWidth b) (board_tileHeight b)
                          (board_cols b) (board_rows b) (board_tileMap b)
                          (markTile inverted (x, y) color (board_lastMove b))) w
  | None => w
  end.

(** Modelled from the spec: the tiles that carry colour [color] in the
    HighlightState of [Board]. *)
Definition highlighted (color : string) (w : World) : list TileKey :=
  carrying color (board_lastMove (board w)).

End Board.

(* ===================================================================== *)
(** ** PieceHandler *)
(* ===================================================================== *)

Module PieceHandler.

Definition geometry (gs : GameState.t) (w : World) : Geometry :=
  mkGeometry (ph_tileWidth (pieceHandler w)) (ph_tileHeight (pieceHandler w))
             (GameState.cols gs) (GameState.rows gs).

Definition with_pieceMap (m : gmap string Group) (w : World) : World :=
  let p := pieceHandler w in
  with_pieceHandler
    (mkPieceHandler (ph_tileWidth p) (ph_tileHeight p) (ph_inverted p) m) w.

(** Modelled from the spec: [PieceHandler.init(canvas, tileWidth,
    tileHeight)]. *)
Definition init (tileWidth tileHeight : number) (w : World) : World :=
  let p := pieceHandler w in
  with_pieceHandler
    (mkPieceHandler tileWidth tileHeight (ph_inverted p) (ph_pieceMap p)) w.

(** Modelled from the spec: [PieceHandler.deleteAllPieces()], the piece
    half of the "full teardown". *)
Definition deleteAllPieces (w : World) : World :=
  with_canvas (canvas_keep (λ o, negb (isPiece o)) <$> canvas w)
    (with_pieceMap ∅ w).

(** Modelled from the spec: [PieceHandler.updatePiece(gameState, piece)],
    "update or insert the PieceRecord with the new location".  The visual
    is placed by the coordinate mapping, under the orientation the pieces
    were loaded with. *)
Definition updatePiece (gs : GameState.t) (piece : Piece.t) (w : World)
  : World :=
  let p := pieceHandler w in
  let '(l, t) := toScreen (geometry gs w) (ph_inverted p)
                   (Location.x (Piece.location piece))
                   (Location.y (Piece.location piece)) in
  match ph_pieceMap p !! Piece.id piece with
  | Some group =>
      with_pieceMap
        (<[Piece.id piece := mkGroup l t (group_owner group)
                                     (lockMovement group)]> (ph_pieceMap p)) w
  | None =>
      with_canvas (canvas_add (PieceGroup (Piece.id piece)) <$> canvas w)
        (with_pieceMap
           (<[Piece.id piece := mkGroup l t (Piece.owner piece) false]>
              (ph_pieceMap p)) w)
  end.

(** Modelled from the spec: [PieceHandler.loadPieces(playerNum, inverted,
    game, gameState)], the piece half of initialisation: it clears the
    existing records and "populates one PieceRecord per piece".  [game]
    is the receiver of the drag callback and is left out; the spec gives
    [playerNum] no part in populating the records. *)
Definition loadPieces (playerNum : number) (inverted : bool)
    (gs : GameState.t) (w : World) : gmap string Group * World :=
  let w := deleteAllPieces w in
  let p := pieceHandler w in
  let w := with_pieceHandler
             (mkPieceHandler (ph_tileWidth p) (ph_tileHeight p) inverted
                             (ph_pieceMap p)) w in
  let w := foldl (λ w piece, updatePiece gs piece w) w (GameState.pieces gs) in
  (ph_pieceMap (pieceHandler w), w).

(** Modelled from the spec: [PieceHandler.deletePiece(piece)] "removes
    the PieceRecord and its visual representation; no-op (not an error)
    if the id is already absent". *)
Definition deletePiece (piece : Piece.t) (w : World) : World :=
  match ph_pieceMap (pieceHandler w) !! Piece.id piece with
  | Some _ =>
      with_canvas
        (canvas_keep (λ o, bool_decide (o ≠ PieceGroup (Piece.id piece)))
           <$> canvas w)
        (with_pieceMap (delete (Piece.id piece) (ph_pieceMap (pieceHandler w))) w)
  | None => w
  end.

(** Modelled from the spec: setting the InteractionLock of one record. *)
Definition setLock (locked : bool) (g : Group) : Group :=
  mkGroup (left g) (top g) (group_owner g) locked.

(** Modelled from the spec: [PieceHandler.lockAllPieces()] "sets
    InteractionLock true for every PieceRecord regardless of owner". *)
Definition lockAllPieces (w : World) : World :=
  with_pieceMap (setLock true <$> ph_pieceMap (pieceHandler w)) w.

(** Modelled from the spec: [PieceHandler.unlockPieces(playerNum)] "sets
    InteractionLock false only for records owned by playerNum, true for
    all others". *)
Definition unlockPieces (playerNum : number) (w : World) : World :=
  with_pieceMap
    ((λ g, setLock (bool_decide (group_owner g ≠ playerNum)) g)
       <$> ph_pieceMap (pieceHandler w)) w.

End PieceHandler.

(* ===================================================================== *)
(** ** ChessGame *)
(* ===================================================================== *)

(** What a method call ends in: it returns, or an exception leaves it with
    the state as mutated so far. *)
Inductive Outcome : Type :=
  | Returns (w : World)
  | Throws (error : string) (w : World).

Module ChessGame.
Section methods.

Context {colors : ColorConstants} {marks : LastMoveMarks}.

(** [this.props] *)
Variable props : Props.t.

(** [this.props.inverted!] as the boolean a callee tests: the assertion
    is erased at run time and [null] is falsy. *)
Definition inverted_ : bool := default false (Props.inverted props).

Definition setTileMap (m : gmap TileKey Tile) (w : World) : World :=
  let f := self w in
  with_self (mkFields m (pieceMap f) (tileWidth f) (tileHeight f)) w.

Definition setPieceMap (m : gmap string Group) (w : World) : World :=
  let f := self w in
  with_self (mkFields (tileMap f) m (tileWidth f) (tileHeight f)) w.

Definition setTileSize (tw th : number) (w : World) : World :=
  let f := self w in
  with_self (mkFields (tileMap f) (pieceMap f) tw th) w.

(** [componentDidUpdate(prevProps, prevState, snapshot)]; the component
    has no state and the last two arguments are not read. *)
Definition componentDidUpdate (prevProps : Props.t) (w : World) : World :=
  match Props.playerNum props, Props.inverted props with
  | Some playerNum, Some inverted =>
      if decide (Props.inverted props ≠ Props.inverted prevProps) then
        let w := PieceHandler.deleteAllPieces w in
        let w := Board.deleteAll w in
        let '(tm, w) := Board.loadBoard inverted (Props.gameState props) w in
        let w := setTileMap tm w in
        let '(pm, w) :=
          PieceHandler.loadPieces playerNum inverted (Props.gameState props) w in
        setPieceMap pm w
      else w
  | _, _ => w
  end.

(** The canvas once [componentDidMount] has configured it: stacking
    preserved, sized by the props, group selection off, the two opacity
    handlers registered, nothing on it. *)
Definition newCanvas : Canvas :=
  mkCanvas (Props.width props) (Props.height props) true false
           ["object:moving"; "object:modified"] [].

(** [componentDidMount()].  Reading [.width] of a missing [board] is the
    one place where the method can throw. *)
Definition componentDidMount (w : World) : Outcome :=
  let canvas := newCanvas in
  let w := with_canvas (Some canvas) w in
  match GameState.board (Props.gameState props) with
  | None => Throws "TypeError" w
  | Some board =>
      let tw := JS.div (canvas_width canvas)
                       (JS.to_number (BoardDims.width board)) in
      let w := setTileSize tw (tileHeight (self w)) w in
      let th := JS.div (canvas_height canvas)
                       (JS.to_number (BoardDims.height board)) in
      let w := setTileSize (tileWidth (self w)) th w in
      let w := Board.init (tileWidth (self w)) (tileHeight (self w)) w in
      Returns
        (PieceHandler.init (tileWidth (self w)) (tileHeight (self w)) w)
  end.

(** [updatePiece(piece)] *)
Definition updatePiece (piece : Piece.t) (w : World) : World :=
  let w :=
    match ph_pieceMap (pieceHandler w) !! Piece.id piece with
    | Some group =>
        let oldXY := Board.fabricPosToXY inverted_ (left group) (top group) w in
        let w := Board.updateBoardHighlight inverted_
                   (Location.x oldXY) (Location.y oldXY)
                   LAST_MOVE_HIGHLIGHT_COLOR w in
        log (Location.y oldXY) w
    | None => w
    end in
  let w := PieceHandler.updatePiece (Props.gameState props) piece w in
  let w := Board.updateBoardHighlight inverted_
             (Location.x (Piece.location piece))
             (Location.y (Piece.location piece))
             LAST_MOVE_HIGHLIGHT_COLOR w in
  log (Location.y (Piece.location piece)) w.

(** [deletePiece(piece)] *)
Definition deletePiece (piece : Piece.t) (w : World) : World :=
  PieceHandler.deletePiece piece w.

(** [lockAllPieces(playerNum)] *)
Definition lockAllPieces (playerNum : number) (w : World) : World :=
  PieceHandler.lockAllPieces w.

(** [unlockPieces(playerNum)] *)
Definition unlockPieces (playerNum : number) (w : World) : World :=
  PieceHandler.unlockPieces playerNum w.

(** The text [displayWinner] creates, and what [text.center()] makes of
    it. *)
Definition winnerText (playerNum : number) : Text :=
  mkText playerNum " wins!" (At (Num 0) (Num 0)) "black".

Definition center (t : Text) : Text :=
  mkText (text_number t) (text_suffix t) CanvasCentre (text_fill t).

(** [displayWinner(playerNum)]: the text is added, then centred (the
    canvas holds the object, so it shows the centred text), then the
    canvas is drawn again, which changes none of its contents. *)
Definition displayWinner (playerNum : number) (w : World) : World :=
  match canvas w with
  | Some c =>
      let text := winnerText playerNum in
      with_canvas (Some (canvas_add (TextObject (center text)) c)) w
  | None => w
  end.

(** A sequence of [updatePiece] calls, in order. *)
Definition updatePieces (moves : list Piece.t) (w : World) : World :=
  foldl (λ w piece, updatePiece piece w) w moves.

End methods.
End ChessGame.

(* ===================================================================== *)
(** ** The highlight record of _WebChess.svelte *)
(* ===================================================================== *)

Module WebChess.
Section bindings.

(** Payload types of the websocket store; the handlers only copy them. *)
Variables Kings Moves Turn : Type.

(** The object bound to the [highlighted] prop of the board. *)
Record Highlighted : Type := mkHighlighted {
  in_check_kings : JS.nullable Kings;
  possibleMoves : JS.nullable Moves;
  lastTurn : JS.nullable Turn
}.

(** The fields of a [GameInfo] value that the handler reads. *)
Record GameInfo : Type := mkGameInfo {
  info_in_check_kings : JS.nullable Kings;
  info_last_turn : JS.nullable Turn
}.

(** [let highlighted = {};] *)
Definition initial : Highlighted :=
  mkHighlighted JS.Undefined JS.Undefined JS.Undefined.

(** [MovesFrom.subscribe(function (e) { ... })] *)
Definition onMovesFrom (e : JS.nullable Moves) (highlighted : Highlighted)
  : Highlighted :=
  let highlighted :=
    mkHighlighted (in_check_kings highlighted) (possibleMoves highlighted)
                  JS.Null in
  mkHighlighted (in_check_kings highlighted) e (lastTurn highlighted).

(** [GameInfo.subscribe(function (v) { ... })] *)
Definition onGameInfo (v : GameInfo) (highlighted : Highlighted)
  : Highlighted :=
  mkHighlighted (info_in_check_kings v) JS.Null (info_last_turn v).

End bindings.

Arguments mkHighlighted {Kings Moves Turn}.
Arguments in_check_kings {Kings Moves Turn}.
Arguments possibleMoves {Kings Moves Turn}.
Arguments lastTurn {Kings Moves Turn}.
Arguments mkGameInfo {Kings Turn}.
Arguments info_in_check_kings {Kings Turn}.
Arguments info_last_turn {Kings Turn}.
Arguments initial {Kings Moves Turn}.
Arguments onMovesFrom {Kings Moves Turn}.
Arguments onGameInfo {Kings Moves Turn}.

End WebChess.

Global Instance Outcome_eq_dec : EqDecision Outcome.
Proof. solve_decision. Defined.

(** The state a call leaves behind, however it ended. *)
Definition stateOf (o : Outcome) : World :=
  match o with Returns w | Throws _ w => w end.

(* ===================================================================== *)
(** ** The specification's vocabulary, next to the code *)
(* ===================================================================== *)

(** The spec's "full teardown (remove all piece and tile visuals)": what
    the first two calls of the rebuild in [componentDidUpdate] do. *)
Definition teardown (w : World) : World :=
  Board.deleteAll (PieceHandler.deleteAllPieces w).

(** The spec's "re-initialization from gameState": the two loads of the
    rebuild, each result stored in its field. *)
Definition reinitialize (props : Props.t) (playerNum : number)
    (inverted : bool) (w : World) : World :=
  let '(tm, w) := Board.loadBoard inverted (Props.gameState props) w in
  let w := ChessGame.setTileMap tm w in
  let '(pm, w) :=
    PieceHandler.loadPieces playerNum inverted (Props.gameState props) w in
  ChessGame.setPieceMap pm w.

(** No tile and no piece is on the canvas. *)
Definition noVisuals (w : World) : Prop :=
  ∀ c o, canvas w = Some c → o ∈ objects c → isTile o = false ∧ isPiece o = false.

(** Modelled from the spec: what the spec promises of the highlights, as a
    property of the marks.  "Mark the destination tile with the 'last move'
    highlight color": the tile marked carries the colour.  "Both the origin
    and destination highlights reflect the move just applied; any highlight
    from a previous move is overwritten, not merged": after the two marks of
    a move exactly their two tiles carry the colour, whatever was
    highlighted before. *)
Class Supersedes (M : LastMoveMarks) : Prop := {
  mark_shows : ∀ inverted k color entries,
    k ∈ Board.carrying color (markTile inverted k color entries);
  mark_supersedes : ∀ inverted o d color entries k,
    k ∈ Board.carrying color
          (markTile inverted d color (markTile inverted o color entries))
    ↔ k = o ∨ k = d
}.

(** The two most recent entries of a list. *)
Definition lastTwo {A} (l : list A) : list A := drop (length l - 2) l.

(** One way of marking that meets the promise: keep the two most recent
    marks. *)
Definition keepLastTwo : LastMoveMarks :=
  {| markTile := λ _ k color entries, lastTwo (entries ++ [(k, color)]) |}.

(** [PieceHandler] has drawn the piece [id] for the logical square [loc]:
    its record exists and its visual sits where the mapping, with the tile
    size and orientation [PieceHandler] holds, puts that square. *)
Definition drawnOn (gs : GameState.t) (w : World) (id : string)
    (loc : Location.t) : Prop :=
  ∃ group, ph_pieceMap (pieceHandler w) !! id = Some group
    ∧ (left group, top group)
      = toScreen (PieceHandler.geometry gs w) (ph_inverted (pieceHandler w))
          (Location.x loc) (Location.y loc).

(** The tile key of a logical square. *)
Definition keyOf (loc : Location.t) : TileKey := (Location.x loc, Location.y loc).

(** The object a call of [displayWinner] leaves on the canvas. *)
Definition winnerOverlay (playerNum : number) : FabricObject :=
  TextObject (ChessGame.center (ChessGame.winnerText playerNum)).

(** [Board] and [PieceHandler] scale alike and the pieces were loaded under
    the orientation of the props: the state of a mounted and loaded
    component. *)
Definition coherent (props : Props.t) (w : World) : Prop :=
  Board.geometry w = PieceHandler.geometry (Props.gameState props) w
  ∧ ph_inverted (pieceHandler w) = ChessGame.inverted_ props.

(** The spec's error-handling rule for a snapshot without board width or
    height: [initialize] ends in an error. *)
Definition failsFast (props : Props.t) (w : World) : Prop :=
  ∃ error w', ChessGame.componentDidMount props w = Throws error w'.

(* ===================================================================== *)
(** ** A concrete session *)
(* ===================================================================== *)

(** An 8×8 board on an 800×800 canvas with one piece on (3,3), mounted and
    then loaded once the orientation is known. *)
Module Scenario.

Definition colours : ColorConstants :=
  {| LAST_MOVE_HIGHLIGHT_COLOR := "yellow" |}.

Definition square (x y : Z) : Location.t :=
  Location.mk (JS.of_Z x) (JS.of_Z y).

Definition key (x y : Z) : TileKey := (JS.of_Z x, JS.of_Z y).

Definition p1 (x y : Z) : Piece.t := Piece.mk "p1" (square x y) (JS.of_Z 0).
Definition p2 (x y : Z) : Piece.t := Piece.mk "p2" (square x y) (JS.of_Z 1).
Definition p3 (x y : Z) : Piece.t := Piece.mk "p3" (square x y) (JS.of_Z 1).
Definition ghost : Piece.t := Piece.mk "ghost" (square 0 0) (JS.of_Z 0).

Definition dims (w h : option number) : option BoardDims.t :=
  Some (BoardDims.mk w h).

Definition gameState : GameState.t :=
  GameState.mk (dims (Some (JS.of_Z 8)) (Some (JS.of_Z 8))) [p1 3 3].

Definition props (inverted : option bool) : Props.t :=
  Props.mk (JS.of_Z 800) (JS.of_Z 800) gameState inverted (Some (JS.of_Z 0)).

(** The same page with a snapshot whose board lacks its width. *)
Definition propsNoWidth : Props.t :=
  Props.mk (JS.of_Z 800) (JS.of_Z 800)
           (GameState.mk (dims None (Some (JS.of_Z 8))) [p1 3 3])
           (Some false) (Some (JS.of_Z 0)).

Definition mounted : World :=
  stateOf (ChessGame.componentDidMount (props None) initialWorld).

Definition loaded : World :=
  ChessGame.componentDidUpdate (props (Some false)) (props None) mounted.

(** The same board without any piece on it: the pieces arrive one by one
    through [updatePiece]. *)
Definition propsEmpty (inverted : option bool) : Props.t :=
  Props.mk (JS.of_Z 800) (JS.of_Z 800)
           (GameState.mk (dims (Some (JS.of_Z 8)) (Some (JS.of_Z 8))) [])
           inverted (Some (JS.of_Z 0)).

Definition loadedEmpty : World :=
  ChessGame.componentDidUpdate (propsEmpty (Some false)) (propsEmpty None)
    (stateOf (ChessGame.componentDidMount (propsEmpty None) initialWorld)).

End Scenario.

(* ===================================================================== *)
(** ** The drag handlers of the canvas *)
(* ===================================================================== *)

(** [canvas.on({'object:moving': ..., 'object:modified': ...})] in
    [componentDidMount].  A handler receives the event of the canvas and
    writes one property of its target; [Rest] stands for every other
    property of the dragged object. *)
Module CanvasEvents.
Section handlers.

Variable Rest : Type.

Record Target : Type := mkTarget {
  opacity : number;
  rest : Rest
}.

(** An event whose [target] may be undefined. *)
Record Event : Type := mkEvent {
  target : option Target
}.

(** A handler returns, having mutated the target, or the property write on
    a missing target throws. *)
Inductive Fired : Type :=
  | Handled (e : Event)
  | TypeError.

(** [e!.target!.opacity = o]; the assertions are erased at run time. *)
Definition setOpacity (o : number) (e : Event) : Fired :=
  match target e with
  | Some t => Handled (mkEvent (Some (mkTarget o (rest t))))
  | None => TypeError
  end.

(** The literal [0.6]. *)
Definition dragOpacity : number := Num (Q2Qc (6 # 10)).

(** ['object:moving': function(e) { e!.target!.opacity = 0.6; }] *)
Definition objectMoving (e : Event) : Fired := setOpacity dragOpacity e.

(** ['object:modified': function(e) { e!.target!.opacity = 1; }] *)
Definition objectModified (e : Event) : Fired := setOpacity (JS.of_Z 1) e.

(** The handler registered under an event name, if any. *)
Definition handler (name : string) : option (Event → Fired) :=
  if decide (name = "object:moving") then Some objectMoving
  else if decide (name = "object:modified") then Some objectModified
  else None.

(** The canvas fires the event [name]: its handler runs; an event without
    a handler changes nothing. *)
Definition fire (name : string) (e : Event) : Fired :=
  match handler name with
  | Some h => h e
  | None => Handled e
  end.

(** Events fired one after the other on the same object; an exception is
    where the sequence stops. *)
Definition fireAll (names : list string) (e : Event) : Fired :=
  foldl (λ r name, match r with Handled e => fire name e | TypeError => TypeError end)
        (Handled e) names.

End handlers.

Arguments mkTarget {Rest}.
Arguments opacity {Rest}.
Arguments rest {Rest}.
Arguments mkEvent {Rest}.
Arguments target {Rest}.
Arguments Handled {Rest}.
Arguments TypeError {Rest}.
Arguments setOpacity {Rest}.
Arguments objectMoving {Rest}.
Arguments objectModified {Rest}.
Arguments handler {Rest}.
Arguments fire {Rest}.
Arguments fireAll {Rest}.

End CanvasEvents.

(* ===================================================================== *)
(** ** Sequences of calls and of store events *)
(* ===================================================================== *)

(** [displayWinner] called for each of [playerNums], in order. *)
Definition displayWinners (playerNums : list number) (w : World) : World :=
  foldl (λ w playerNum, ChessGame.displayWinner playerNum w) w playerNums.

(** What one call [updatePiece(piece)] prints in state [w]: the row of the
    origin when the piece has a record, then the row of the destination. *)
Definition printedBy (props : Props.t) (piece : Piece.t) (w : World)
  : list number :=
  match ph_pieceMap (pieceHandler w) !! Piece.id piece with
  | Some group =>
      [Location.y (Board.fabricPosToXY (ChessGame.inverted_ props)
                     (left group) (top group) w)]
  | None => []
  end ++ [Location.y (Piece.location piece)].

(** The events the two stores of [_WebChess.svelte] deliver to the page. *)
Module WebChessPage.
Section page.

Variables Kings Moves Turn : Type.

Inductive StoreEvent : Type :=
  | MovesFromEvent (e : JS.nullable Moves)
  | GameInfoEvent (v : WebChess.GameInfo Kings Turn).

(** The subscribed callback runs on the current [highlighted]. *)
Definition deliver (highlighted : WebChess.Highlighted Kings Moves Turn)
    (event : StoreEvent) : WebChess.Highlighted Kings Moves Turn :=
  match event with
  | MovesFromEvent e => WebChess.onMovesFrom e highlighted
  | GameInfoEvent v => WebChess.onGameInfo v highlighted
  end.

Definition deliverAll (events : list StoreEvent)
    (highlighted : WebChess.Highlighted Kings Moves Turn)
  : WebChess.Highlighted Kings Moves Turn :=
  foldl deliver highlighted events.

(** Creation of the page: [subscribe] calls its callback at once with the
    current value of the store, first for [MovesFrom], then for
    [GameInfo], as the script has them. *)
Definition created (e0 : JS.nullable Moves) (v0 : WebChess.GameInfo Kings Turn)
  : WebChess.Highlighted Kings Moves Turn :=
  deliverAll [MovesFromEvent e0; GameInfoEvent v0] WebChess.initial.

End page.

Arguments MovesFromEvent {Kings Moves Turn}.
Arguments GameInfoEvent {Kings Moves Turn}.
Arguments deliver {Kings Moves Turn}.
Arguments deliverAll {Kings Moves Turn}.
Arguments created {Kings Moves Turn}.

End WebChessPage.

(* ===================================================================== *)
(** ** Proof tools *)
(* ===================================================================== *)

(** Closed facts about concrete states are decided by evaluation. *)
Ltac by_evaluation := apply (bool_decide_unpack _); vm_compute; exact I.

Lemma lastTwo_snoc {A} (l : list A) (a : A) :
  lastTwo (l ++ [a]) = drop (length l - 1) l ++ [a].
Proof.
  unfold lastTwo. rewrite length_app, drop_app. simpl.
  replace (length l + 1 - 2)%nat with (length l - 1)%nat by lia.
  replace (length l - 1 - length l)%nat with 0%nat by lia.
  reflexivity.
Qed.

Lemma lastTwo_snoc_snoc {A} (l : list A) (a b : A) :
  lastTwo (lastTwo (l ++ [a]) ++ [b]) = [a; b].
Proof.
  rewrite (lastTwo_snoc l a), lastTwo_snoc.
  rewrite length_app, drop_app, length_drop. simpl.
  replace (length l - (length l - 1) + 1 - 1 - (length l - (length l - 1)))%nat
    with 0%nat by lia.
  rewrite drop_drop.
  rewrite drop_ge by lia. reflexivity.
Qed.

(* ===================================================================== *)
(** ** Mounting: tile size *)
(* ===================================================================== *)

(** Dividing by a missing value gives [NaN]. *)
Lemma div_undefined (a : number) : JS.div a (JS.to_number None) = NaN.
Proof. by destruct a. Qed.

(** With a [board] in the snapshot, [componentDidMount] returns, and the
    three copies of the tile size are the two quotients. *)
Lemma componentDidMount_returns (props : Props.t) (w : World) (b : BoardDims.t) :
  GameState.board (Props.gameState props) = Some b →
  let tw := JS.div (Props.width props) (JS.to_number (BoardDims.width b)) in
  let th := JS.div (Props.height props) (JS.to_number (BoardDims.height b)) in
  ∃ w', ChessGame.componentDidMount props w = Returns w'
        ∧ (tileWidth (self w'), tileHeight (self w')) = (tw, th)
        ∧ (board_tileWidth (board w'), board_tileHeight (board w')) = (tw, th)
        ∧ (ph_tileWidth (pieceHandler w'), ph_tileHeight (pieceHandler w'))
          = (tw, th).
Proof.
  intros Hb tw th. unfold ChessGame.componentDidMount. rewrite Hb.
  eexists. split; [reflexivity|]. by repeat split.
Qed.

(** C6.  [componentDidMount] computes the tile size as the canvas width
    divided by the board width and the canvas height divided by the board
    height (the canvas has the size given in the props), and hands the same
    size to [Board] and [PieceHandler]; an 8×8 board on an 800×800 canvas
    gets tiles of 100×100. *)
Theorem componentDidMount_tile_size (props : Props.t) (w : World)
    (bw bh : option number) :
  GameState.board (Props.gameState props) = Some (BoardDims.mk bw bh) →
  ∃ w', ChessGame.componentDidMount props w = Returns w'
    ∧ canvas w' = Some (ChessGame.newCanvas props)
    ∧ tileWidth (self w')
      = JS.div (canvas_width (ChessGame.newCanvas props)) (JS.to_number bw)
    ∧ tileHeight (self w')
      = JS.div (canvas_height (ChessGame.newCanvas props)) (JS.to_number bh)
    ∧ board_tileWidth (board w') = tileWidth (self w')
    ∧ board_tileHeight (board w') = tileHeight (self w')
    ∧ ph_tileWidth (pieceHandler w') = tileWidth (self w')
    ∧ ph_tileHeight (pieceHandler w') = tileHeight (self w')
    ∧ (Props.width props = JS.of_Z 800 → Props.height props = JS.of_Z 800 →
       bw = Some (JS.of_Z 8) → bh = Some (JS.of_Z 8) →
       tileWidth (self w') = JS.of_Z 100 ∧ tileHeight (self w') = JS.of_Z 100).
Proof.
  intros Hb. unfold ChessGame.componentDidMount. rewrite Hb.
  eexists. split; [reflexivity|]. cbn -[JS.div JS.of_Z].
  do 7 (split; [reflexivity|]).
  intros -> -> -> ->. split; by_evaluation.
Qed.

Lemma componentDidMount_tile_size_witness :
  ∃ w', ChessGame.componentDidMount (Scenario.props None) initialWorld
        = Returns w'
    ∧ tileWidth (self w') = JS.of_Z 100 ∧ tileHeight (self w') = JS.of_Z 100.
Proof.
  destruct (componentDidMount_tile_size (Scenario.props None) initialWorld
              (Some (JS.of_Z 8)) (Some (JS.of_Z 8)) eq_refl)
    as (w' & Hret & _ & _ & _ & _ & _ & _ & _ & H100).
  exists w'. split; [exact Hret|].
  apply H100; reflexivity.
Defined.

(** C4 fails as stated: with [board.width] missing from the snapshot,
    [componentDidMount] does not end in an error; it returns, and the tile
    width it has computed and handed on is [NaN]. *)
Lemma missing_width_is_not_an_error :
  ¬ failsFast Scenario.propsNoWidth initialWorld
  ∧ ∃ w', ChessGame.componentDidMount Scenario.propsNoWidth initialWorld
          = Returns w'
      ∧ tileWidth (self w') = NaN
      ∧ board_tileWidth (board w') = NaN
      ∧ ph_tileWidth (pieceHandler w') = NaN.
Proof.
  split.
  - intros (e & w' & He). discriminate He.
  - eexists. split; [reflexivity|]. by repeat split.
Qed.

(** C4, amended.  A snapshot that has a [board] but lacks its width or its
    height raises nothing: [componentDidMount] returns, the missing
    dimension makes the corresponding tile size [NaN], and that size is what
    [Board.init] and [PieceHandler.init] receive. *)
Theorem componentDidMount_missing_dimension (props : Props.t) (w : World)
    (b : BoardDims.t) :
  GameState.board (Props.gameState props) = Some b →
  ¬ failsFast props w
  ∧ ∃ w', ChessGame.componentDidMount props w = Returns w'
      ∧ (BoardDims.width b = None →
         tileWidth (self w') = NaN ∧ board_tileWidth (board w') = NaN
         ∧ ph_tileWidth (pieceHandler w') = NaN)
      ∧ (BoardDims.height b = None →
         tileHeight (self w') = NaN ∧ board_tileHeight (board w') = NaN
         ∧ ph_tileHeight (pieceHandler w') = NaN).
Proof.
  intros Hb.
  destruct (componentDidMount_returns props w b Hb)
    as (w' & Hret & Hself & Hboard & Hph).
  split.
  - intros (e & w'' & He). rewrite Hret in He. discriminate He.
  - exists w'. split; [exact Hret|].
    injection Hself as -> ->. injection Hboard as -> ->.
    injection Hph as -> ->.
    split; intros ->; by rewrite div_undefined.
Qed.

Lemma componentDidMount_missing_dimension_witness :
  ¬ failsFast Scenario.propsNoWidth initialWorld
  ∧ ∃ w', ChessGame.componentDidMount Scenario.propsNoWidth initialWorld
          = Returns w'.
Proof.
  destruct (componentDidMount_missing_dimension Scenario.propsNoWidth
              initialWorld (BoardDims.mk None (Some (JS.of_Z 8))) eq_refl)
    as (Hno & w' & Hret & _).
  split; [exact Hno|]. exists w'. exact Hret.
Defined.

(** Only a snapshot without any [board] makes the method throw, and by
    then the new canvas is already in place. *)
Remark componentDidMount_missing_board (props : Props.t) (w : World) :
  GameState.board (Props.gameState props) = None →
  ChessGame.componentDidMount props w
  = Throws "TypeError" (with_canvas (Some (ChessGame.newCanvas props)) w).
Proof. intros Hb. unfold ChessGame.componentDidMount. by rewrite Hb. Qed.

(* ===================================================================== *)
(** ** Announcing the winner *)
(* ===================================================================== *)

Lemma displayWinner_adds (playerNum : number) (w : World) (c : Canvas) :
  canvas w = Some c →
  ChessGame.displayWinner playerNum w
  = with_canvas (Some (canvas_add (winnerOverlay playerNum) c)) w.
Proof. intros Hc. unfold ChessGame.displayWinner. by rewrite Hc. Qed.

(** C8 fails as stated: on the mounted canvas a second [displayWinner(0)]
    changes the state the first one left, which has one overlay where the
    second leaves two. *)
Lemma displayWinner_twice_differs :
  let once := ChessGame.displayWinner (JS.of_Z 0) Scenario.mounted in
  let twice := ChessGame.displayWinner (JS.of_Z 0) once in
  twice ≠ once
  ∧ (objects <$> canvas once) = Some [winnerOverlay (JS.of_Z 0)]
  ∧ (objects <$> canvas twice)
    = Some [winnerOverlay (JS.of_Z 0); winnerOverlay (JS.of_Z 0)].
Proof.
  cbv zeta. split; [|split].
  - intros Heq. apply (f_equal (λ w, length <$> (objects <$> canvas w))) in Heq.
    vm_compute in Heq. discriminate Heq.
  - reflexivity.
  - reflexivity.
Qed.

(** C8, amended.  Every call of [displayWinner] on a mounted component
    adds one more text object to the canvas, so two calls with the same
    [playerNum] leave two objects where one call leaves one; the two are
    equal in text, position and fill, hence the objects present after two
    calls are the same as after one, only repeated.  Everything but the
    canvas is untouched, and without a canvas the call does nothing. *)
Theorem displayWinner_repeats (playerNum : number) (w : World) :
  let once := ChessGame.displayWinner playerNum w in
  let twice := ChessGame.displayWinner playerNum once in
  match canvas w with
  | Some c =>
      (objects <$> canvas once) = Some (objects c ++ [winnerOverlay playerNum])
      ∧ (objects <$> canvas twice)
        = Some (objects c ++ [winnerOverlay playerNum; winnerOverlay playerNum])
      ∧ (∀ c1 c2 o, canvas once = Some c1 → canvas twice = Some c2 →
                    o ∈ objects c2 ↔ o ∈ objects c1)
      ∧ twice ≠ once
      ∧ with_canvas (canvas w) twice = w
  | None => once = w ∧ twice = w
  end.
Proof.
  cbv zeta. destruct (canvas w) as [c|] eqn:Hc.
  - rewrite (displayWinner_adds _ w c Hc).
    erewrite displayWinner_adds by reflexivity.
    cbn. rewrite <- app_assoc. cbn.
    split; [reflexivity|]. split; [reflexivity|]. split; [|split].
    + intros c1 c2 o [= <-] [= <-]. cbn.
      rewrite <- app_assoc. cbn.
      rewrite !elem_of_app, !elem_of_cons, elem_of_nil. tauto.
    + intros Heq.
      apply (f_equal (λ w, length <$> (objects <$> canvas w))) in Heq.
      cbn in Heq. rewrite !length_app in Heq. cbn in Heq.
      injection Heq. lia.
    + destruct w; cbn in *. by subst.
  - unfold ChessGame.displayWinner. by rewrite !Hc.
Qed.

Lemma displayWinner_repeats_witness :
  let once := ChessGame.displayWinner (JS.of_Z 0) Scenario.mounted in
  let twice := ChessGame.displayWinner (JS.of_Z 0) once in
  (objects <$> canvas twice)
  = Some [winnerOverlay (JS.of_Z 0); winnerOverlay (JS.of_Z 0)]
  ∧ twice ≠ once.
Proof.
  destruct (displayWinner_repeats (JS.of_Z 0) Scenario.mounted)
    as (_ & Htwice & _ & Hne & _).
  split; [exact Htwice | exact Hne].
Defined.

(* ===================================================================== *)
(** ** Locking *)
(* ===================================================================== *)

(** C9.  The result of [lockAllPieces] does not depend on its argument:
    any two argument values give the same state from the same start. *)
Theorem lockAllPieces_ignores_playerNum (playerNum1 playerNum2 : number)
    (w : World) :
  ChessGame.lockAllPieces playerNum1 w = ChessGame.lockAllPieces playerNum2 w.
Proof. reflexivity. Qed.

(** What the state then is: every record is locked, whoever owns it. *)
Lemma lockAllPieces_locks (playerNum : number) (w : World) (id : string) (g : Group) :
  ph_pieceMap (pieceHandler (ChessGame.lockAllPieces playerNum w)) !! id = Some g →
  lockMovement g = true.
Proof.
  unfold ChessGame.lockAllPieces, PieceHandler.lockAllPieces. cbn.
  rewrite lookup_fmap. destruct (ph_pieceMap (pieceHandler w) !! id); cbn.
  - by intros [= <-].
  - discriminate.
Qed.

(** Testable property 5 of the spec: after [unlockPieces(p)] exactly the
    records owned by [p] are unlocked. *)
Lemma unlockPieces_unlocks_owner (playerNum : number) (w : World)
    (id : string) (g : Group) :
  ph_pieceMap (pieceHandler (ChessGame.unlockPieces playerNum w)) !! id = Some g →
  lockMovement g = false ↔ group_owner g = playerNum.
Proof.
  unfold ChessGame.unlockPieces, PieceHandler.unlockPieces. cbn.
  rewrite lookup_fmap. destruct (ph_pieceMap (pieceHandler w) !! id); cbn.
  - intros [= <-]. cbn. rewrite bool_decide_eq_false. split.
    + intros Hnn. by destruct (decide (group_owner g0 = playerNum)).
    + intros -> Hne. by apply Hne.
  - discriminate.
Qed.

(* ===================================================================== *)
(** ** The highlight record of the Svelte page *)
(* ===================================================================== *)

(** C5 fails as stated: in [_WebChess.svelte] setting the legal-move
    preview clears the last move, and a game update that brings a last
    move clears the preview. *)
Lemma highlight_layers_clear_each_other :
  let moves : JS.nullable (list (Z * Z)) := JS.Val [(3, 5); (3, 6)]%Z in
  let turn : JS.nullable ((Z * Z) * (Z * Z)) := JS.Val ((3, 3), (3, 4))%Z in
  let info : WebChess.GameInfo (list (Z * Z)) _ :=
    WebChess.mkGameInfo JS.Null turn in
  let withLastMove := WebChess.onGameInfo info WebChess.initial in
  let withPreview := WebChess.onMovesFrom moves withLastMove in
  WebChess.lastTurn withLastMove = turn
  ∧ WebChess.lastTurn withPreview ≠ WebChess.lastTurn withLastMove
  ∧ WebChess.possibleMoves withPreview = moves
  ∧ WebChess.possibleMoves (WebChess.onGameInfo info withPreview)
    ≠ WebChess.possibleMoves withPreview.
Proof. cbv zeta. by repeat split. Qed.

(** C5, amended.  In [_WebChess.svelte] the two highlight layers exclude
    each other: a [MovesFrom] event stores the event as [possibleMoves] and
    sets [lastTurn] to [null], keeping [in_check_kings]; a [GameInfo] update
    replaces the record by one with the update's [in_check_kings] and
    [last_turn] and with [possibleMoves] set to [null]. *)
Theorem highlight_layers_exclusive {Kings Moves Turn : Type}
    (e : JS.nullable Moves) (v : WebChess.GameInfo Kings Turn)
    (highlighted : WebChess.Highlighted Kings Moves Turn) :
  WebChess.onMovesFrom e highlighted
  = WebChess.mkHighlighted (WebChess.in_check_kings highlighted) e JS.Null
  ∧ WebChess.onGameInfo v highlighted
    = WebChess.mkHighlighted (WebChess.info_in_check_kings v) JS.Null
                             (WebChess.info_last_turn v).
Proof. split; reflexivity. Qed.

(* ===================================================================== *)
(** ** Frame facts about the helper classes *)
(* ===================================================================== *)

Lemma PieceHandler_updatePiece_board gs piece w :
  board (PieceHandler.updatePiece gs piece w) = board w.
Proof.
  unfold PieceHandler.updatePiece.
  destruct (toScreen _ _ _ _) as [l t].
  by destruct (ph_pieceMap (pieceHandler w) !! Piece.id piece).
Qed.

Lemma PieceHandler_updatePiece_self gs piece w :
  self (PieceHandler.updatePiece gs piece w) = self w.
Proof.
  unfold PieceHandler.updatePiece.
  destruct (toScreen _ _ _ _) as [l t].
  by destruct (ph_pieceMap (pieceHandler w) !! Piece.id piece).
Qed.

Lemma PieceHandler_updatePiece_dom gs piece w :
  dom (ph_pieceMap (pieceHandler (PieceHandler.updatePiece gs piece w)))
  = ({[ Piece.id piece ]} ∪ dom (ph_pieceMap (pieceHandler w)) : gset string).
Proof.
  unfold PieceHandler.updatePiece.
  destruct (toScreen _ _ _ _) as [l t].
  destruct (ph_pieceMap (pieceHandler w) !! Piece.id piece); cbn;
    by rewrite dom_insert_L.
Qed.

Lemma PieceHandler_updatePiece_settings gs piece w :
  let p := pieceHandler w in
  let p' := pieceHandler (PieceHandler.updatePiece gs piece w) in
  (ph_tileWidth p', ph_tileHeight p', ph_inverted p')
  = (ph_tileWidth p, ph_tileHeight p, ph_inverted p).
Proof.
  cbv zeta. unfold PieceHandler.updatePiece.
  destruct (toScreen _ _ _ _) as [l t].
  by destruct (ph_pieceMap (pieceHandler w) !! Piece.id piece).
Qed.

(** Whatever a single update keeps, a run of updates keeps. *)
Lemma updatePiece_fold_frame {A} (f : World → A) gs :
  (∀ piece w, f (PieceHandler.updatePiece gs piece w) = f w) →
  ∀ pieces w,
    f (foldl (λ w piece, PieceHandler.updatePiece gs piece w) w pieces) = f w.
Proof.
  intros Hstep pieces. induction pieces as [|p ps IH]; intros w; cbn; [done|].
  by rewrite IH, Hstep.
Qed.

Lemma updatePiece_fold_board gs pieces w :
  board (foldl (λ w piece, PieceHandler.updatePiece gs piece w) w pieces)
  = board w.
Proof. apply updatePiece_fold_frame, PieceHandler_updatePiece_board. Qed.

Lemma updatePiece_fold_self gs pieces w :
  self (foldl (λ w piece, PieceHandler.updatePiece gs piece w) w pieces)
  = self w.
Proof. apply updatePiece_fold_frame, PieceHandler_updatePiece_self. Qed.

Lemma updatePiece_fold_inverted gs pieces w :
  ph_inverted (pieceHandler
    (foldl (λ w piece, PieceHandler.updatePiece gs piece w) w pieces))
  = ph_inverted (pieceHandler w).
Proof.
  apply (updatePiece_fold_frame (λ w, ph_inverted (pieceHandler w))).
  intros piece w0.
  by injection (PieceHandler_updatePiece_settings gs piece w0).
Qed.

Lemma updatePiece_fold_dom gs pieces w :
  dom (ph_pieceMap (pieceHandler
         (foldl (λ w piece, PieceHandler.updatePiece gs piece w) w pieces)))
  = (list_to_set (Piece.id <$> pieces) ∪ dom (ph_pieceMap (pieceHandler w))
     : gset string).
Proof.
  revert w. induction pieces as [|p ps IH]; intros w; cbn.
  - by rewrite (left_id_L ∅ (∪)).
  - rewrite IH, PieceHandler_updatePiece_dom.
    by rewrite (assoc_L (∪)), (comm_L (∪) (list_to_set _)).
Qed.

Lemma canvas_keep_objects keep c o :
  o ∈ objects (canvas_keep keep c) ↔ o ∈ objects c ∧ keep o = true.
Proof. unfold canvas_keep. cbn. by rewrite list_elem_of_filter, (comm and). Qed.

(** After the two deletions nothing of the old board is left: no tile or
    piece is on the canvas and both maps are empty. *)
Lemma teardown_clears (w : World) :
  noVisuals (teardown w)
  ∧ board_tileMap (board (teardown w)) = ∅
  ∧ ph_pieceMap (pieceHandler (teardown w)) = ∅
  ∧ board_lastMove (board (teardown w)) = [].
Proof.
  split; [|by repeat split].
  intros c o Hc Ho. unfold teardown, Board.deleteAll,
    PieceHandler.deleteAllPieces in Hc. cbn in Hc.
  destruct (canvas w) as [c0|]; cbn in Hc; [|discriminate].
  injection Hc as <-.
  apply canvas_keep_objects in Ho as [Ho Htile].
  apply canvas_keep_objects in Ho as [_ Hpiece].
  split; by apply negb_true_iff.
Qed.

(** What the two loads leave: the tiles of the snapshot's board, one record
    per piece id of the snapshot, and both maps stored in the component. *)
Lemma reinitialize_loads (props : Props.t) (playerNum : number)
    (inverted : bool) (w : World) :
  let gs := Props.gameState props in
  let w' := reinitialize props playerNum inverted w in
  let g := mkGeometry (board_tileWidth (board w)) (board_tileHeight (board w))
                      (GameState.cols gs) (GameState.rows gs) in
  board_tileMap (board w') = list_to_map (Board.tiles g inverted)
  ∧ tileMap (self w') = board_tileMap (board w')
  ∧ dom (ph_pieceMap (pieceHandler w'))
    = (list_to_set (Piece.id <$> GameState.pieces gs) : gset string)
  ∧ pieceMap (self w') = ph_pieceMap (pieceHandler w')
  ∧ ph_inverted (pieceHandler w') = inverted.
Proof.
  cbv zeta. unfold reinitialize, Board.loadBoard, PieceHandler.loadPieces.
  cbn -[Board.tiles]. rewrite !updatePiece_fold_board, !updatePiece_fold_self.
  cbn -[Board.tiles]. split; [done|]. split; [done|]. split; [|split; [done|]].
  - rewrite updatePiece_fold_dom. cbn.
    by rewrite dom_empty_L, (right_id_L ∅ (∪)).
  - by rewrite updatePiece_fold_inverted.
Qed.

(* ===================================================================== *)
(** ** Orientation changes *)
(* ===================================================================== *)

(** The rebuild, when the guard of [componentDidUpdate] lets it through. *)
Lemma componentDidUpdate_rebuilds props prevProps w playerNum inverted :
  Props.playerNum props = Some playerNum →
  Props.inverted props = Some inverted →
  Props.inverted prevProps ≠ Some inverted →
  ChessGame.componentDidUpdate props prevProps w
  = reinitialize props playerNum inverted (teardown w).
Proof.
  intros Hp Hi Hne. unfold ChessGame.componentDidUpdate.
  rewrite Hp, Hi. destruct (decide _) as [_|Heq].
  - reflexivity.
  - exfalso. apply Heq. congruence.
Qed.

Lemma componentDidUpdate_same_orientation props prevProps w :
  Props.inverted props = Props.inverted prevProps →
  ChessGame.componentDidUpdate props prevProps w = w.
Proof.
  intros Heq. unfold ChessGame.componentDidUpdate.
  destruct (Props.playerNum props), (Props.inverted props) eqn:Hi; try done.
  by destruct (decide _).
Qed.

(** C3.  [componentDidUpdate] acts only when the new [inverted] differs
    from the previous one.  When it acts, it is the full teardown (after
    which no tile or piece is on the canvas and both maps are empty)
    followed by the re-initialisation from the game state (after which the
    piece map holds one record per piece id of the snapshot).  When the
    new value equals the previous one, the state, and with it the piece
    map, is unchanged. *)
Theorem componentDidUpdate_orientation (props prevProps : Props.t) (w : World) :
  let w' := ChessGame.componentDidUpdate props prevProps w in
  (w' ≠ w → Props.inverted props ≠ Props.inverted prevProps)
  ∧ (∀ playerNum inverted,
       Props.playerNum props = Some playerNum →
       Props.inverted props = Some inverted →
       Props.inverted prevProps ≠ Some inverted →
       w' = reinitialize props playerNum inverted (teardown w)
       ∧ noVisuals (teardown w)
       ∧ board_tileMap (board (teardown w)) = ∅
       ∧ ph_pieceMap (pieceHandler (teardown w)) = ∅
       ∧ dom (ph_pieceMap (pieceHandler w'))
         = (list_to_set (Piece.id <$> GameState.pieces (Props.gameState props))
            : gset string)
       ∧ pieceMap (self w') = ph_pieceMap (pieceHandler w')
       ∧ tileMap (self w') = board_tileMap (board w'))
  ∧ (Props.inverted props = Props.inverted prevProps →
       w' = w
       ∧ ph_pieceMap (pieceHandler w') = ph_pieceMap (pieceHandler w)
       ∧ pieceMap (self w') = pieceMap (self w)).
Proof.
  cbv zeta. split; [|split].
  - intros Hchanged Heq. apply Hchanged.
    by apply componentDidUpdate_same_orientation.
  - intros playerNum inverted Hp Hi Hne.
    rewrite (componentDidUpdate_rebuilds _ _ _ _ _ Hp Hi Hne).
    destruct (teardown_clears w) as (Hvis & Htiles & Hpieces & _).
    destruct (reinitialize_loads props playerNum inverted (teardown w))
      as (_ & Htm & Hdom & Hpm & _).
    split; [reflexivity|]. split; [exact Hvis|].
    split; [exact Htiles|]. split; [exact Hpieces|].
    split; [exact Hdom|]. split; [exact Hpm | exact Htm].
  - intros Heq. by rewrite componentDidUpdate_same_orientation.
Qed.

Lemma componentDidUpdate_orientation_witness :
  Scenario.loaded
  = reinitialize (Scenario.props (Some false)) (JS.of_Z 0) false
      (teardown Scenario.mounted)
  ∧ ChessGame.componentDidUpdate (Scenario.props (Some false))
      (Scenario.props (Some false)) Scenario.loaded = Scenario.loaded.
Proof.
  split.
  - apply (componentDidUpdate_orientation (Scenario.props (Some false))
             (Scenario.props None) Scenario.mounted);
      [reflexivity | reflexivity | discriminate].
  - apply (componentDidUpdate_orientation (Scenario.props (Some false))
             (Scenario.props (Some false)) Scenario.loaded).
    reflexivity.
Defined.

(** C10.  With [playerNum] null or [inverted] null, [componentDidUpdate]
    rebuilds nothing even when the [inverted] prop has changed: the tile
    map and piece map fields, and all the rest of the state, stay as they
    were. *)
Theorem componentDidUpdate_null_props (props prevProps : Props.t) (w : World) :
  Props.playerNum props = None ∨ Props.inverted props = None →
  let w' := ChessGame.componentDidUpdate props prevProps w in
  tileMap (self w') = tileMap (self w)
  ∧ pieceMap (self w') = pieceMap (self w)
  ∧ w' = w.
Proof.
  intros Hnull. cbv zeta.
  assert (ChessGame.componentDidUpdate props prevProps w = w) as ->; [|done].
  unfold ChessGame.componentDidUpdate.
  destruct Hnull as [-> | ->]; [done|].
  by destruct (Props.playerNum props).
Qed.

Lemma componentDidUpdate_null_props_witness :
  Props.inverted (Scenario.props None) ≠ Props.inverted (Scenario.props (Some true))
  ∧ ChessGame.componentDidUpdate (Scenario.props None)
      (Scenario.props (Some true)) Scenario.loaded = Scenario.loaded.
Proof.
  split; [discriminate|].
  apply (componentDidUpdate_null_props (Scenario.props None)
           (Scenario.props (Some true)) Scenario.loaded).
  right. reflexivity.
Defined.

(* ===================================================================== *)
(** ** The coordinate mapping *)
(* ===================================================================== *)

Lemma scale_unscale (x s : number) :
  JS.finite x → JS.nonzero s → JS.div (JS.mul x s) s = x.
Proof.
  destruct x as [p| | |], s as [q| | |]; cbn; try tauto.
  intros _ Hq. destruct (decide (q = 0%Qc)) as [->|_]; [done|].
  f_equal. field. exact Hq.
Qed.

Lemma mirror_finite (n i : number) :
  JS.finite n → JS.finite i → JS.finite (mirror n i).
Proof. by destruct n, i. Qed.

Lemma mirror_mirror (n i : number) :
  JS.finite n → JS.finite i → mirror n (mirror n i) = i.
Proof.
  destruct n as [p| | |], i as [q| | |]; cbn; try tauto.
  intros _ _. f_equal. ring.
Qed.

(** The inverse mapping undoes the forward one, for either orientation. *)
Lemma toLogical_toScreen (g : Geometry) (inverted : bool) (x y : number) :
  usable g → JS.finite x → JS.finite y →
  toLogical g inverted (toScreen g inverted x y).1 (toScreen g inverted x y).2
  = Location.mk x y.
Proof.
  intros (Hw & Hh & Hc & Hr) Hx Hy. unfold toLogical, toScreen.
  destruct inverted; cbn [fst snd].
  - rewrite !scale_unscale by auto using mirror_finite.
    by rewrite !mirror_mirror.
  - by rewrite !scale_unscale.
Qed.

(** C2.  For every finite logical coordinate and both orientations,
    [Board.fabricPosToXY] applied to the screen position of [(x, y)] gives
    [(x, y)] back, whenever the tile size held by [Board] is finite and not
    zero; and the mapping reads nothing but that geometry: in any two
    states with the same geometry, the same arguments give the same
    result. *)
Theorem fabricPosToXY_toScreen (w : World) (inverted : bool) (x y : number) :
  usable (Board.geometry w) → JS.finite x → JS.finite y →
  let pos := toScreen (Board.geometry w) inverted x y in
  Board.fabricPosToXY inverted pos.1 pos.2 w = Location.mk x y
  ∧ ∀ w' left top,
      Board.geometry w' = Board.geometry w →
      Board.fabricPosToXY inverted left top w'
      = Board.fabricPosToXY inverted left top w.
Proof.
  intros Hg Hx Hy. cbv zeta. split.
  - unfold Board.fabricPosToXY. by apply toLogical_toScreen.
  - intros w' l t Hsame. unfold Board.fabricPosToXY. by rewrite Hsame.
Qed.

Lemma fabricPosToXY_toScreen_witness :
  let pos := toScreen (Board.geometry Scenario.loaded) false
               (JS.of_Z 3) (JS.of_Z 4) in
  Board.fabricPosToXY false pos.1 pos.2 Scenario.loaded = Scenario.square 3 4.
Proof.
  apply (fabricPosToXY_toScreen Scenario.loaded false (JS.of_Z 3) (JS.of_Z 4)).
  - repeat split; by_evaluation.
  - exact I.
  - exact I.
Defined.

(** Testable property 6 of the spec: on the 8×8 board with tiles of
    100×100 the square (0,0) is drawn at (0,0), and at (700,700) when the
    board is inverted. *)
Example toScreen_corner :
  toScreen (Board.geometry Scenario.loaded) false (JS.of_Z 0) (JS.of_Z 0)
  = (JS.of_Z 0, JS.of_Z 0)
  ∧ toScreen (Board.geometry Scenario.loaded) true (JS.of_Z 0) (JS.of_Z 0)
    = (JS.of_Z 700, JS.of_Z 700).
Proof. split; by_evaluation. Qed.

(* ===================================================================== *)
(** ** Deleting a piece *)
(* ===================================================================== *)

(** C7.  [deletePiece] of a piece whose id is not in the piece map returns
    the state it was given, unchanged.  When the id is in the map, its
    record is removed from the map and its visual from the canvas; the other
    records, the other objects on the canvas, and the rest of the state are
    as before. *)
Theorem deletePiece_absent_or_removed (piece : Piece.t) (w : World) :
  let w' := ChessGame.deletePiece piece w in
  (ph_pieceMap (pieceHandler w) !! Piece.id piece = None → w' = w)
  ∧ (is_Some (ph_pieceMap (pieceHandler w) !! Piece.id piece) →
     ph_pieceMap (pieceHandler w')
     = delete (Piece.id piece) (ph_pieceMap (pieceHandler w))
     ∧ (∀ c c', canvas w = Some c → canvas w' = Some c' →
          ∀ o, o ∈ objects c' ↔ o ∈ objects c ∧ o ≠ PieceGroup (Piece.id piece))
     ∧ (canvas w = None → canvas w' = None)
     ∧ board w' = board w ∧ self w' = self w ∧ console w' = console w).
Proof.
  cbv zeta. unfold ChessGame.deletePiece, PieceHandler.deletePiece.
  split.
  - by intros ->.
  - intros [g ->]. cbn. split; [reflexivity|].
    split; [|split; [by intros ->|done]].
    intros c c' Hc Hc' o. rewrite Hc in Hc'. cbn in Hc'.
    injection Hc' as <-. rewrite canvas_keep_objects.
    by rewrite bool_decide_eq_true.
Qed.

(** Testable property 8 of the spec ("ghost" was never inserted), and the
    removal of the piece that is there. *)
Lemma deletePiece_absent_or_removed_witness :
  ChessGame.deletePiece Scenario.ghost Scenario.loaded = Scenario.loaded
  ∧ ph_pieceMap (pieceHandler
      (ChessGame.deletePiece (Scenario.p1 3 3) Scenario.loaded))
    = delete "p1" (ph_pieceMap (pieceHandler Scenario.loaded)).
Proof.
  split.
  - apply (deletePiece_absent_or_removed Scenario.ghost Scenario.loaded).
    reflexivity.
  - apply (deletePiece_absent_or_removed (Scenario.p1 3 3) Scenario.loaded).
    by_evaluation.
Defined.

(* ===================================================================== *)
(** ** The last-move highlight *)
(* ===================================================================== *)

(** Keeping the two most recent marks meets what the spec promises. *)
Lemma keepLastTwo_supersedes : Supersedes keepLastTwo.
Proof.
  split.
  - intros inverted k color entries. unfold Board.carrying.
    cbn [markTile keepLastTwo].
    rewrite lastTwo_snoc, list.filter_app, fmap_app. cbn.
    rewrite decide_True by done. apply elem_of_app. right.
    by apply list_elem_of_singleton.
  - intros inverted o d color entries k. unfold Board.carrying.
    cbn [markTile keepLastTwo].
    rewrite lastTwo_snoc_snoc. cbn. rewrite !decide_True by done. cbn.
    rewrite !elem_of_cons, elem_of_nil. tauto.
Qed.

Lemma PieceHandler_updatePiece_pieceHandler gs piece w w' :
  pieceHandler w = pieceHandler w' →
  pieceHandler (PieceHandler.updatePiece gs piece w)
  = pieceHandler (PieceHandler.updatePiece gs piece w').
Proof.
  intros Hsame.
  unfold PieceHandler.updatePiece, PieceHandler.geometry,
    PieceHandler.with_pieceMap.
  rewrite Hsame. destruct (toScreen _ _ _ _) as [l t].
  by destruct (ph_pieceMap (pieceHandler w') !! Piece.id piece).
Qed.

Lemma drawnOn_pieceHandler gs w w' id loc :
  pieceHandler w = pieceHandler w' → drawnOn gs w id loc → drawnOn gs w' id loc.
Proof.
  intros Hsame. unfold drawnOn, PieceHandler.geometry. by rewrite Hsame.
Qed.

Lemma PieceHandler_updatePiece_draws gs piece w :
  drawnOn gs (PieceHandler.updatePiece gs piece w)
    (Piece.id piece) (Piece.location piece).
Proof.
  unfold drawnOn, PieceHandler.updatePiece.
  destruct (toScreen _ _ _ _) as [l t] eqn:Hpos.
  destruct (ph_pieceMap (pieceHandler w) !! Piece.id piece); cbn;
    (eexists; split; [apply lookup_insert_eq | cbn; by rewrite <- Hpos]).
Qed.

Lemma PieceHandler_updatePiece_keeps gs piece w id loc :
  id ≠ Piece.id piece →
  drawnOn gs w id loc → drawnOn gs (PieceHandler.updatePiece gs piece w) id loc.
Proof.
  intros Hne (group & Hgroup & Hpos). exists group.
  unfold PieceHandler.updatePiece.
  destruct (toScreen _ _ (Location.x (Piece.location piece)) _) as [l t].
  destruct (ph_pieceMap (pieceHandler w) !! Piece.id piece); cbn;
    (split; [by rewrite lookup_insert_ne | exact Hpos]).
Qed.

Lemma updatePiece_fold_keeps gs pieces w id loc :
  Forall (λ piece, Piece.id piece ≠ id) pieces →
  drawnOn gs w id loc →
  drawnOn gs (foldl (λ w piece, PieceHandler.updatePiece gs piece w) w pieces)
    id loc.
Proof.
  intros Hother. revert w.
  induction Hother as [|piece pieces Hne _ IH]; intros w Hdrawn; cbn; [done|].
  apply IH, PieceHandler_updatePiece_keeps; [congruence | done].
Qed.

(** After the pieces of a snapshot with distinct ids have been loaded, each
    is drawn on its square. *)
Lemma updatePiece_fold_draws gs pieces w piece :
  NoDup (Piece.id <$> pieces) → piece ∈ pieces →
  drawnOn gs (foldl (λ w piece, PieceHandler.updatePiece gs piece w) w pieces)
    (Piece.id piece) (Piece.location piece).
Proof.
  revert w. induction pieces as [|q pieces IH]; intros w Hnodup Hin.
  - by apply elem_of_nil in Hin.
  - cbn in Hnodup. apply list.NoDup_cons in Hnodup as [Hfresh Hnodup].
    apply elem_of_cons in Hin as [->|Hin]; cbn.
    + apply updatePiece_fold_keeps; [|apply PieceHandler_updatePiece_draws].
      apply list.Forall_forall. intros m Hm Heq. apply Hfresh.
      rewrite <- Heq. apply list_elem_of_fmap. by exists m.
    + by apply IH.
Qed.

Lemma reinitialize_draws (props : Props.t) (playerNum : number)
    (inverted : bool) (w : World) (piece : Piece.t) :
  NoDup (Piece.id <$> GameState.pieces (Props.gameState props)) →
  piece ∈ GameState.pieces (Props.gameState props) →
  drawnOn (Props.gameState props) (reinitialize props playerNum inverted w)
    (Piece.id piece) (Piece.location piece).
Proof.
  intros Hnodup Hin. unfold reinitialize, Board.loadBoard,
    PieceHandler.loadPieces. cbn -[Board.tiles].
  eapply drawnOn_pieceHandler; [|by apply updatePiece_fold_draws].
  reflexivity.
Qed.

Section last_move.

Context {colors : ColorConstants} {marks : LastMoveMarks}.
Variable props : Props.t.

Lemma updateBoardHighlight_lastMove inverted x y color w :
  board_lastMove (board (Board.updateBoardHighlight inverted x y color w))
  = match board_tileMap (board w) !! (x, y) with
    | Some _ => markTile inverted (x, y) color (board_lastMove (board w))
    | None => board_lastMove (board w)
    end.
Proof.
  unfold Board.updateBoardHighlight.
  by destruct (board_tileMap (board w) !! (x, y)).
Qed.

Lemma updateBoardHighlight_frame inverted x y color w :
  let w' := Board.updateBoardHighlight inverted x y color w in
  board_tileMap (board w') = board_tileMap (board w)
  ∧ Board.geometry w' = Board.geometry w
  ∧ pieceHandler w' = pieceHandler w
  ∧ canvas w' = canvas w ∧ self w' = self w ∧ console w' = console w.
Proof.
  cbv zeta. unfold Board.updateBoardHighlight.
  by destruct (board_tileMap (board w) !! (x, y)).
Qed.

Lemma updatePieces_snoc (moves : list Piece.t) (piece : Piece.t) (w : World) :
  ChessGame.updatePieces props (moves ++ [piece]) w
  = ChessGame.updatePiece props piece (ChessGame.updatePieces props moves w).
Proof. unfold ChessGame.updatePieces. by rewrite foldl_app. Qed.

(** What a call leaves of [PieceHandler] is what
    [PieceHandler.updatePiece] leaves of it, and it does not touch the
    tiles or the geometry of [Board]. *)
Lemma updatePiece_frame (piece : Piece.t) (w : World) :
  let w' := ChessGame.updatePiece props piece w in
  pieceHandler w'
  = pieceHandler (PieceHandler.updatePiece (Props.gameState props) piece w)
  ∧ board_tileMap (board w') = board_tileMap (board w)
  ∧ Board.geometry w' = Board.geometry w.
Proof.
  cbv zeta. unfold ChessGame.updatePiece.
  set (w1 := match ph_pieceMap (pieceHandler w) !! Piece.id piece with
             | Some group => _ | None => w end).
  assert (pieceHandler w1 = pieceHandler w
          ∧ board_tileMap (board w1) = board_tileMap (board w)
          ∧ Board.geometry w1 = Board.geometry w) as (Hph & Htm & Hgeo).
  { subst w1. destruct (ph_pieceMap (pieceHandler w) !! Piece.id piece)
      as [group|]; [|done].
    destruct (updateBoardHighlight_frame (ChessGame.inverted_ props)
      (Location.x (Board.fabricPosToXY (ChessGame.inverted_ props)
                     (left group) (top group) w))
      (Location.y (Board.fabricPosToXY (ChessGame.inverted_ props)
                     (left group) (top group) w))
      LAST_MOVE_HIGHLIGHT_COLOR w) as (Htm & Hgeo & Hph & _).
    split; [exact Hph | split; [exact Htm | exact Hgeo]]. }
  set (w2 := PieceHandler.updatePiece (Props.gameState props) piece w1).
  destruct (updateBoardHighlight_frame (ChessGame.inverted_ props)
    (Location.x (Piece.location piece)) (Location.y (Piece.location piece))
    LAST_MOVE_HIGHLIGHT_COLOR w2) as (Htm2 & Hgeo2 & Hph2 & _).
  split; [|split].
  - etrans; [exact Hph2|]. by apply PieceHandler_updatePiece_pieceHandler.
  - etrans; [exact Htm2|]. subst w2.
    by rewrite PieceHandler_updatePiece_board.
  - etrans; [exact Hgeo2|]. subst w2. unfold Board.geometry.
    rewrite PieceHandler_updatePiece_board. exact Hgeo.
Qed.

(** A call for a piece that has a record marks the origin it reads, then
    the destination. *)
Lemma updatePiece_lastMove_known (piece : Piece.t) (w : World) (group : Group) :
  let o := Board.fabricPosToXY (ChessGame.inverted_ props)
             (left group) (top group) w in
  ph_pieceMap (pieceHandler w) !! Piece.id piece = Some group →
  is_Some (board_tileMap (board w) !! keyOf o) →
  is_Some (board_tileMap (board w) !! keyOf (Piece.location piece)) →
  board_lastMove (board (ChessGame.updatePiece props piece w))
  = markTile (ChessGame.inverted_ props) (keyOf (Piece.location piece))
      LAST_MOVE_HIGHLIGHT_COLOR
      (markTile (ChessGame.inverted_ props) (keyOf o)
         LAST_MOVE_HIGHLIGHT_COLOR (board_lastMove (board w))).
Proof.
  cbv zeta. unfold keyOf. intros Hgroup [to Ho] [td Hd].
  unfold ChessGame.updatePiece. rewrite Hgroup. cbn.
  rewrite updateBoardHighlight_lastMove, PieceHandler_updatePiece_board. cbn.
  match goal with
  | |- context [Board.updateBoardHighlight ?i ?x ?y ?c w] =>
      destruct (updateBoardHighlight_frame i x y c w) as (-> & _)
  end.
  by rewrite Hd, updateBoardHighlight_lastMove, Ho.
Qed.

(** A call for a piece without a record marks the destination only. *)
Lemma updatePiece_lastMove_new (piece : Piece.t) (w : World) :
  ph_pieceMap (pieceHandler w) !! Piece.id piece = None →
  is_Some (board_tileMap (board w) !! keyOf (Piece.location piece)) →
  board_lastMove (board (ChessGame.updatePiece props piece w))
  = markTile (ChessGame.inverted_ props) (keyOf (Piece.location piece))
      LAST_MOVE_HIGHLIGHT_COLOR (board_lastMove (board w)).
Proof.
  unfold keyOf. intros Hgroup [td Hd].
  unfold ChessGame.updatePiece. rewrite Hgroup. cbn.
  rewrite updateBoardHighlight_lastMove, PieceHandler_updatePiece_board.
  by rewrite Hd.
Qed.

(** The call draws its piece on the destination and leaves the other
    pieces where they are drawn. *)
Lemma updatePiece_draws (piece : Piece.t) (w : World) :
  drawnOn (Props.gameState props) (ChessGame.updatePiece props piece w)
    (Piece.id piece) (Piece.location piece).
Proof.
  eapply drawnOn_pieceHandler; [|apply PieceHandler_updatePiece_draws].
  symmetry. apply updatePiece_frame.
Qed.

Lemma updatePiece_keeps (piece : Piece.t) (w : World) id loc :
  id ≠ Piece.id piece →
  drawnOn (Props.gameState props) w id loc →
  drawnOn (Props.gameState props) (ChessGame.updatePiece props piece w) id loc.
Proof.
  intros Hne Hdrawn.
  eapply drawnOn_pieceHandler;
    [|by apply (PieceHandler_updatePiece_keeps _ piece w)].
  symmetry. apply updatePiece_frame.
Qed.

Lemma updatePiece_coherent (piece : Piece.t) (w : World) :
  coherent props w → coherent props (ChessGame.updatePiece props piece w).
Proof.
  intros [Hgeo Hinv].
  destruct (updatePiece_frame piece w) as (Hph & _ & Hg).
  unfold coherent, PieceHandler.geometry. rewrite Hg, Hph.
  injection (PieceHandler_updatePiece_settings (Props.gameState props) piece w)
    as -> -> ->.
  split; [exact Hgeo | exact Hinv].
Qed.

(** What a sequence of calls keeps. *)
Lemma updatePieces_keeps (moves : list Piece.t) (w : World) :
  let w' := ChessGame.updatePieces props moves w in
  (coherent props w → coherent props w')
  ∧ board_tileMap (board w') = board_tileMap (board w)
  ∧ Board.geometry w' = Board.geometry w
  ∧ ∀ id loc, Forall (λ piece, Piece.id piece ≠ id) moves →
      drawnOn (Props.gameState props) w id loc →
      drawnOn (Props.gameState props) w' id loc.
Proof.
  cbv zeta. induction moves as [|m ms IH] using rev_ind; [done|].
  rewrite updatePieces_snoc. destruct IH as (IHc & IHt & IHg & IHd).
  destruct (updatePiece_frame m (ChessGame.updatePieces props ms w))
    as (_ & Htm & Hgeo).
  split; [|split; [|split]].
  - intros Hc. by apply updatePiece_coherent, IHc.
  - by rewrite Htm.
  - by rewrite Hgeo.
  - intros id loc Hother Hdrawn. apply Forall_app in Hother as [Hms Hm].
    rewrite Forall_singleton in Hm.
    apply updatePiece_keeps; [|by apply IHd].
    intros Heq. apply Hm. by rewrite Heq.
Qed.

(** Where the mapping is sound, the origin a call reads off the visual of
    a piece is the square the piece is drawn on. *)
Lemma drawnOn_read (w : World) id loc :
  coherent props w → usable (Board.geometry w) →
  JS.finite (Location.x loc) → JS.finite (Location.y loc) →
  drawnOn (Props.gameState props) w id loc →
  ∃ group, ph_pieceMap (pieceHandler w) !! id = Some group
    ∧ Board.fabricPosToXY (ChessGame.inverted_ props)
        (left group) (top group) w = loc.
Proof.
  intros [Hgeo Hinv] Husable Hx Hy (group & Hgroup & Hpos).
  exists group. split; [exact Hgroup|].
  rewrite <- Hgeo, Hinv in Hpos. unfold Board.fabricPosToXY.
  replace (left group) with (left group, top group).1 by done.
  replace (top group) with (left group, top group).2 at 2 by done.
  rewrite Hpos, toLogical_toScreen by done. by destruct loc.
Qed.

Context {promise : Supersedes marks}.

(** The heart of the matter: a call for a piece drawn on [o] leaves the
    colour on [o] and on the destination, and on nothing else. *)
Lemma updatePiece_known_piece (piece : Piece.t) (w : World) (o : Location.t) :
  coherent props w → usable (Board.geometry w) →
  JS.finite (Location.x o) → JS.finite (Location.y o) →
  drawnOn (Props.gameState props) w (Piece.id piece) o →
  is_Some (board_tileMap (board w) !! keyOf o) →
  is_Some (board_tileMap (board w) !! keyOf (Piece.location piece)) →
  let shown := Board.highlighted LAST_MOVE_HIGHLIGHT_COLOR
                 (ChessGame.updatePiece props piece w) in
  (∀ k, k ∈ shown ↔ k = keyOf o ∨ k = keyOf (Piece.location piece))
  ∧ length (remove_dups shown) ≤ 2.
Proof.
  intros Hc Hu Hx Hy Hdrawn Ho Hd. cbv zeta.
  destruct (drawnOn_read w _ o Hc Hu Hx Hy Hdrawn) as (group & Hgroup & Hread).
  assert (∀ k, k ∈ Board.highlighted LAST_MOVE_HIGHLIGHT_COLOR
                     (ChessGame.updatePiece props piece w)
               ↔ k = keyOf o ∨ k = keyOf (Piece.location piece)) as Hexact.
  { intros k. unfold Board.highlighted.
    rewrite (updatePiece_lastMove_known piece w group Hgroup);
      rewrite ?Hread; [|done..].
    apply mark_supersedes. }
  split; [exact Hexact|].
  change 2 with (length [keyOf o; keyOf (Piece.location piece)]).
  apply submseteq_length, NoDup_submseteq; [apply NoDup_remove_dups|].
  intros k Hk. apply elem_of_remove_dups, Hexact in Hk.
  rewrite !elem_of_cons. tauto.
Qed.

End last_move.




(* ===================================================================== *)
(** ** More about mounting *)
(* ===================================================================== *)

(** X4.  A snapshot without a [board] object makes [componentDidMount]
    throw when it reads [board.width]: by then the new canvas is stored,
    but no tile size has been computed and neither [Board.init] nor
    [PieceHandler.init] has run, so the tile sizes of the component and of
    both helper classes are the old ones. *)
Theorem componentDidMount_without_board (props : Props.t) (w : World) :
  GameState.board (Props.gameState props) = None →
  ∃ w', ChessGame.componentDidMount props w = Throws "TypeError" w'
    ∧ canvas w' = Some (ChessGame.newCanvas props)
    ∧ self w' = self w ∧ board w' = board w ∧ pieceHandler w' = pieceHandler w.
Proof.
  intros Hb. unfold ChessGame.componentDidMount. rewrite Hb.
  eexists. split; [reflexivity|]. by repeat split.
Qed.

Lemma componentDidMount_without_board_witness :
  ∃ w', ChessGame.componentDidMount
          (Props.mk (JS.of_Z 800) (JS.of_Z 800) (GameState.mk None []) None None)
          initialWorld = Throws "TypeError" w'
    ∧ self w' = self initialWorld.
Proof.
  destruct (componentDidMount_without_board
              (Props.mk (JS.of_Z 800) (JS.of_Z 800) (GameState.mk None []) None None)
              initialWorld eq_refl) as (w' & Hthrow & _ & Hself & _).
  exists w'. split; [exact Hthrow | exact Hself].
Defined.

(* ===================================================================== *)
(** ** The order in which the props arrive *)
(* ===================================================================== *)

(** X5.  The rebuild is tied to the update in which [inverted] changes.  If
    the orientation arrives while [playerNum] is still null and the player
    number arrives in a later update that leaves the orientation as it is,
    neither update loads the board.  If both are there when the orientation
    arrives, the board is loaded, also for the falsy values [false] and
    [0]: the guard compares with [null], it does not test truthiness. *)
Theorem componentDidUpdate_arrival_order (props0 props1 props2 : Props.t)
    (w : World) :
  (Props.playerNum props1 = None →
   Props.inverted props2 = Props.inverted props1 →
   ChessGame.componentDidUpdate props2 props1
     (ChessGame.componentDidUpdate props1 props0 w) = w)
  ∧ (Props.playerNum props1 = Some (JS.of_Z 0) →
     Props.inverted props1 = Some false →
     Props.inverted props0 = None →
     ChessGame.componentDidUpdate props1 props0 w
     = reinitialize props1 (JS.of_Z 0) false (teardown w)).
Proof.
  split.
  - intros Hnull Hsame.
    rewrite (componentDidUpdate_same_orientation props2 props1) by done.
    unfold ChessGame.componentDidUpdate. by rewrite Hnull.
  - intros Hp Hi Hprev. apply componentDidUpdate_rebuilds; [done..|].
    by rewrite Hprev.
Qed.

Lemma componentDidUpdate_arrival_order_witness :
  let orientationOnly :=
    Props.mk (JS.of_Z 800) (JS.of_Z 800) Scenario.gameState (Some false) None in
  ChessGame.componentDidUpdate (Scenario.props (Some false)) orientationOnly
    (ChessGame.componentDidUpdate orientationOnly (Scenario.props None)
       Scenario.mounted) = Scenario.mounted
  ∧ Scenario.loaded
    = reinitialize (Scenario.props (Some false)) (JS.of_Z 0) false
        (teardown Scenario.mounted).
Proof.
  cbv zeta.
  destruct (componentDidUpdate_arrival_order (Scenario.props None)
              (Props.mk (JS.of_Z 800) (JS.of_Z 800) Scenario.gameState
                 (Some false) None)
              (Scenario.props (Some false)) Scenario.mounted) as [Hnever _].
  destruct (componentDidUpdate_arrival_order (Scenario.props None)
              (Scenario.props (Some false)) (Scenario.props None)
              Scenario.mounted) as [_ Hloads].
  split.
  - apply Hnever; reflexivity.
  - apply Hloads; reflexivity.
Defined.

(* ===================================================================== *)
(** ** Several winners, several moves *)
(* ===================================================================== *)

Lemma displayWinners_snoc (playerNums : list number) (playerNum : number)
    (w : World) :
  displayWinners (playerNums ++ [playerNum]) w
  = ChessGame.displayWinner playerNum (displayWinners playerNums w).
Proof. unfold displayWinners. by rewrite foldl_app. Qed.

(** X6.  [displayWinner] only ever adds.  After calls for [playerNums] on a
    mounted component the canvas holds what it held before, in the same
    order, followed by one overlay per call in call order: an earlier
    winner text is never removed or replaced, and nothing but the list of
    objects changes.  Before the component is mounted the calls do
    nothing. *)
Theorem displayWinners_accumulate (playerNums : list number) (w : World) :
  match canvas w with
  | Some c =>
      canvas (displayWinners playerNums w)
      = Some (mkCanvas (canvas_width c) (canvas_height c)
                (preserveObjectStacking c) (selection c) (handlers c)
                (objects c ++ (winnerOverlay <$> playerNums)))
      ∧ with_canvas (canvas w) (displayWinners playerNums w) = w
  | None => displayWinners playerNums w = w
  end.
Proof.
  induction playerNums as [|p ps IH] using rev_ind.
  - destruct w as [[c|] b ph f l]; cbn; [|done].
    rewrite app_nil_r. by destruct c.
  - rewrite displayWinners_snoc. destruct (canvas w) as [c|] eqn:Hc.
    + destruct IH as [IHc IHw].
      rewrite (displayWinner_adds _ _ _ IHc). cbn.
      rewrite fmap_app, app_assoc. split; [reflexivity|].
      rewrite <- IHw at 2. by destruct (displayWinners ps w).
    + rewrite IH. unfold ChessGame.displayWinner. by rewrite Hc.
Qed.

Lemma displayWinners_accumulate_witness :
  (objects <$> canvas (displayWinners [JS.of_Z 0; JS.of_Z 1] Scenario.mounted))
  = Some [winnerOverlay (JS.of_Z 0); winnerOverlay (JS.of_Z 1)].
Proof.
  destruct (displayWinners_accumulate [JS.of_Z 0; JS.of_Z 1] Scenario.mounted)
    as [Hc _].
  by rewrite Hc.
Defined.

Lemma PieceHandler_updatePiece_console gs piece w :
  console (PieceHandler.updatePiece gs piece w) = console w.
Proof.
  unfold PieceHandler.updatePiece.
  destruct (toScreen _ _ _ _) as [l t].
  by destruct (ph_pieceMap (pieceHandler w) !! Piece.id piece).
Qed.

Section console.

Context {colors : ColorConstants} {marks : LastMoveMarks}.
Variable props : Props.t.

Lemma updateBoardHighlight_console inverted x y color w :
  console (Board.updateBoardHighlight inverted x y color w) = console w.
Proof. apply updateBoardHighlight_frame. Qed.

Lemma updatePiece_console (piece : Piece.t) (w : World) :
  console (ChessGame.updatePiece props piece w)
  = console w ++ printedBy props piece w.
Proof.
  unfold ChessGame.updatePiece, printedBy.
  destruct (ph_pieceMap (pieceHandler w) !! Piece.id piece) as [group|]; cbn.
  - rewrite updateBoardHighlight_console, PieceHandler_updatePiece_console.
    cbn. rewrite updateBoardHighlight_console. by rewrite <- app_assoc.
  - by rewrite updateBoardHighlight_console, PieceHandler_updatePiece_console.
Qed.

Lemma printedBy_length (piece : Piece.t) (w : World) :
  1 ≤ length (printedBy props piece w) ≤ 2.
Proof.
  unfold printedBy.
  destruct (ph_pieceMap (pieceHandler w) !! Piece.id piece); cbn; lia.
Qed.

(** X7.  Every [updatePiece] writes to the console, and writes exactly
    this: when the piece has a record, the row of the origin it read and
    then the row of the destination; when it has none, the row of the
    destination alone.  Hence a sequence of calls only appends to what was
    printed before, one or two numbers per call. *)
Theorem updatePieces_console (moves : list Piece.t) (piece : Piece.t)
    (w : World) :
  let w0 := ChessGame.updatePieces props moves w in
  console (ChessGame.updatePieces props (moves ++ [piece]) w)
  = console w0
    ++ match ph_pieceMap (pieceHandler w0) !! Piece.id piece with
       | Some group =>
           [Location.y (Board.fabricPosToXY (ChessGame.inverted_ props)
                          (left group) (top group) w0);
            Location.y (Piece.location piece)]
       | None => [Location.y (Piece.location piece)]
       end
  ∧ ∃ printed, console w0 = console w ++ printed
      ∧ length moves ≤ length printed ≤ 2 * length moves.
Proof.
  cbv zeta. split.
  - rewrite updatePieces_snoc, updatePiece_console. unfold printedBy.
    by destruct (ph_pieceMap (pieceHandler _) !! Piece.id piece).
  - clear piece. induction moves as [|m ms IH] using rev_ind.
    + exists []. cbn. rewrite app_nil_r. split; [done | lia].
    + destruct IH as (printed & Hcons & Hlen).
      pose proof (printedBy_length m (ChessGame.updatePieces props ms w))
        as Hone.
      exists (printed ++ printedBy props m (ChessGame.updatePieces props ms w)).
      rewrite updatePieces_snoc, updatePiece_console, Hcons, <- app_assoc.
      split; [done|]. rewrite !length_app. cbn. lia.
Qed.

End console.

(* ===================================================================== *)
(** ** Dragging *)
(* ===================================================================== *)

Section dragging.

Context {Rest : Type}.
Implicit Types (e : CanvasEvents.Event Rest) (t : CanvasEvents.Target Rest).

Lemma fireAll_cons name names e :
  CanvasEvents.fireAll (name :: names) e
  = match CanvasEvents.fire name e with
    | CanvasEvents.Handled e' => CanvasEvents.fireAll names e'
    | CanvasEvents.TypeError => CanvasEvents.TypeError
    end.
Proof.
  unfold CanvasEvents.fireAll. cbn.
  destruct (CanvasEvents.fire name e) as [e'|]; [done|].
  induction names as [|n ns IH]; [done|]. exact IH.
Qed.

Lemma fire_moving t :
  CanvasEvents.fire "object:moving" (CanvasEvents.mkEvent (Some t))
  = CanvasEvents.Handled
      (CanvasEvents.mkEvent
         (Some (CanvasEvents.mkTarget (CanvasEvents.dragOpacity)
                  (CanvasEvents.rest t)))).
Proof. reflexivity. Qed.

Lemma fireAll_moving (n : nat) names t :
  CanvasEvents.fireAll (replicate (S n) "object:moving" ++ names)
    (CanvasEvents.mkEvent (Some t))
  = CanvasEvents.fireAll names
      (CanvasEvents.mkEvent
         (Some (CanvasEvents.mkTarget CanvasEvents.dragOpacity
                  (CanvasEvents.rest t)))).
Proof.
  revert t. induction n as [|n IH]; intros t.
  - cbn [replicate app]. by rewrite fireAll_cons, fire_moving.
  - change (replicate (S (S n)) "object:moving" ++ names)
      with ("object:moving" :: (replicate (S n) "object:moving" ++ names)).
    rewrite fireAll_cons, fire_moving. by rewrite IH.
Qed.

(** X8.  The two handlers of the canvas make a dragged object
    semi-transparent and restore it: after any number of [object:moving]
    events its opacity is 0.6, and the [object:modified] event that ends
    the drag leaves it at 1, whatever its opacity was before the drag; no
    other property of the object is written.  The two are the only events
    with a handler, and each of them throws on an event without a
    target. *)
Theorem drag_sets_and_restores_opacity (props : Props.t) (n : nat)
    (t : CanvasEvents.Target Rest) :
  CanvasEvents.fireAll (replicate (S n) "object:moving")
    (CanvasEvents.mkEvent (Some t))
  = CanvasEvents.Handled
      (CanvasEvents.mkEvent
         (Some (CanvasEvents.mkTarget CanvasEvents.dragOpacity
                  (CanvasEvents.rest t))))
  ∧ CanvasEvents.fireAll (replicate n "object:moving" ++ ["object:modified"])
      (CanvasEvents.mkEvent (Some t))
    = CanvasEvents.Handled
        (CanvasEvents.mkEvent
           (Some (CanvasEvents.mkTarget (JS.of_Z 1) (CanvasEvents.rest t))))
  ∧ (∀ name, name ∈ handlers (ChessGame.newCanvas props)
             ↔ CanvasEvents.fire name (CanvasEvents.mkEvent (@None (CanvasEvents.Target Rest)))
               = CanvasEvents.TypeError).
Proof.
  split; [|split].
  - rewrite <- (app_nil_r (replicate (S n) _)). by rewrite fireAll_moving.
  - destruct n as [|n]; [reflexivity|]. by rewrite fireAll_moving.
  - intros name. cbn. rewrite !elem_of_cons, elem_of_nil.
    unfold CanvasEvents.fire, CanvasEvents.handler.
    destruct (decide (name = "object:moving")) as [->|Hm]; [by intuition|].
    destruct (decide (name = "object:modified")) as [->|Hd]; [by intuition|].
    split; [by intuition | discriminate].
Qed.

End dragging.

(* ===================================================================== *)
(** ** The page's record under a stream of store events *)
(* ===================================================================== *)

Section store_events.

Context {Kings Moves Turn : Type}.
Implicit Types (h : WebChess.Highlighted Kings Moves Turn)
               (v : WebChess.GameInfo Kings Turn)
               (es : list (JS.nullable Moves))
               (events : list (WebChessPage.StoreEvent Kings Moves Turn)).

Lemma deliverAll_snoc events event h :
  WebChessPage.deliverAll (events ++ [event]) h
  = WebChessPage.deliver (WebChessPage.deliverAll events h) event.
Proof. unfold WebChessPage.deliverAll. by rewrite foldl_app. Qed.

(** After moves-from events only, the record keeps its [in_check_kings]
    and shows the last of them. *)
Lemma deliverAll_moves es h :
  WebChessPage.deliverAll (WebChessPage.MovesFromEvent <$> es) h
  = match list.last es with
    | Some e => WebChess.mkHighlighted (WebChess.in_check_kings h) e JS.Null
    | None => h
    end.
Proof.
  induction es as [|e es IH] using rev_ind; [done|].
  rewrite fmap_app, last_snoc. cbn [fmap list_fmap].
  rewrite deliverAll_snoc, IH. cbn.
  by destruct (list.last es).
Qed.

(** X9.  The record the page shows depends on the store events only
    through the last [GameInfo] value and the last [MovesFrom] value
    delivered after it.  If nothing came after the game update, it shows
    the update's [in_check_kings] and [last_turn] and no preview; otherwise
    it shows the update's [in_check_kings], the last preview and no last
    move.  Everything delivered before the last game update, and the record
    the page started from, are forgotten. *)
Theorem highlighted_after_events events v es h :
  WebChessPage.deliverAll
    (events ++ WebChessPage.GameInfoEvent v
            :: (WebChessPage.MovesFromEvent <$> es)) h
  = match list.last es with
    | Some e =>
        WebChess.mkHighlighted (WebChess.info_in_check_kings v) e JS.Null
    | None =>
        WebChess.mkHighlighted (WebChess.info_in_check_kings v) JS.Null
                               (WebChess.info_last_turn v)
    end.
Proof.
  unfold WebChessPage.deliverAll. rewrite foldl_app. cbn [foldl].
  fold (WebChessPage.deliverAll (WebChessPage.MovesFromEvent <$> es)
          (WebChessPage.deliver (foldl WebChessPage.deliver h events)
             (WebChessPage.GameInfoEvent v))).
  rewrite deliverAll_moves. by destruct (list.last es).
Qed.

(** X10.  From the first event on, the preview and the last move are never
    both set: after any non-empty sequence of store events at least one of
    [possibleMoves] and [lastTurn] is [null].  On creation of the page the
    current value of the [MovesFrom] store is delivered first and is
    overwritten at once by the current [GameInfo], whose subscription
    follows: the page starts without a preview. *)
Theorem highlighted_never_both events h :
  (events ≠ [] →
   WebChess.possibleMoves (WebChessPage.deliverAll events h) = JS.Null
   ∨ WebChess.lastTurn (WebChessPage.deliverAll events h) = JS.Null)
  ∧ ∀ (e0 : JS.nullable Moves) (v0 : WebChess.GameInfo Kings Turn),
      WebChessPage.created e0 v0
      = WebChess.mkHighlighted (WebChess.info_in_check_kings v0) JS.Null
                               (WebChess.info_last_turn v0).
Proof.
  split; [|reflexivity].
  destruct events as [|event events' _] using rev_ind; [done|].
  intros _. rewrite deliverAll_snoc.
  destruct event as [e|v]; cbn; [by right | by left].
Qed.

End store_events.

Lemma highlighted_never_both_witness :
  let moves : JS.nullable (list (Z * Z)) := JS.Val [(3, 5)]%Z in
  let info : WebChess.GameInfo (list (Z * Z)) ((Z * Z) * (Z * Z)) :=
    WebChess.mkGameInfo JS.Null (JS.Val ((3, 3), (3, 4))%Z) in
  WebChess.possibleMoves
    (WebChessPage.deliverAll
       [WebChessPage.GameInfoEvent info; WebChessPage.MovesFromEvent moves]
       WebChess.initial) = JS.Null
  ∨ WebChess.lastTurn
      (WebChessPage.deliverAll
         [WebChessPage.GameInfoEvent info; WebChessPage.MovesFromEvent moves]
         WebChess.initial) = JS.Null.
Proof.
  cbv zeta.
  apply (highlighted_never_both
           [WebChessPage.GameInfoEvent
              (WebChess.mkGameInfo JS.Null (JS.Val ((3, 3), (3, 4))%Z));
            WebChessPage.MovesFromEvent (JS.Val [(3, 5)]%Z)]
           WebChess.initial).
  discriminate.
Defined.
